(** * Supermarket shopping assistant: search and store navigation

    A shallow embedding of [backend/pathfinding.py], [backend/search.py]
    and the deterministic reply path of [backend/ai_pipeline.py],
    followed by the properties of the grid navigator, the fuzzy ranker,
    the query expansion and the fallback reply.

    Conventions of the embedding:
    - Python [int] is [Z]; a coordinate tuple [(x, y)] is a pair [Z * Z].
    - Python [str] is [string]; the builtins used by the sources
      ([lower], [in], [startswith], [endswith], [split], [strip],
      [replace], [join]) are defined on the characters of the string,
      with case mapping restricted to the ASCII letters.
    - a [set] is a [gset], a [dict] keyed by strings is a [gmap string].
    - scores are exact rationals ([Q]); the third-party scorers
      (rapidfuzz), the spell checker and the remote matcher are taken
      through interfaces ([Class]) that state only their documented
      contract.
    - a Python exception is the [None] of an [option] result. *)

From Stdlib Require Import ZArith QArith Qround Lia Lqa Bool Ascii String.
From Stdlib Require Import DecimalString DecimalNat.
From stdpp Require Import base gmap sets list sorting strings.

#[local] Set Warnings "-clear-no-such-hyp".

Local Open Scope string_scope.
Local Open Scope list_scope.
Local Open Scope Z_scope.

(* ===================================================================== *)
(** ** Python string builtins *)
(* ===================================================================== *)

Module PyStr.

Definition chr (n : nat) : string := String (ascii_of_nat n) EmptyString.

(** The characters the sources need and a literal cannot hold. *)
Definition nl : string := chr 10.
Definition dq : string := chr 34.

Definition is_upper (c : ascii) : bool :=
  let n := nat_of_ascii c in (65 <=? n)%nat && (n <=? 90)%nat.

Definition lower_char (c : ascii) : ascii :=
  if is_upper c then ascii_of_nat (nat_of_ascii c + 32) else c.

(** [s.lower()] *)
Fixpoint lower (s : string) : string :=
  match s with
  | EmptyString => EmptyString
  | String c s' => String (lower_char c) (lower s')
  end.

(** [s.startswith(t)] *)
Fixpoint startswith (s t : string) {struct t} : bool :=
  match t, s with
  | EmptyString, _ => true
  | String _ _, EmptyString => false
  | String b t', String a s' => if Ascii.eqb a b then startswith s' t' else false
  end.

(** [t in s] *)
Fixpoint contains (t s : string) : bool :=
  startswith s t ||
  match s with
  | EmptyString => false
  | String _ s' => contains t s'
  end.

(** [s.endswith(t)]: some tail of [s] is [t]. *)
Fixpoint endswith (s t : string) : bool :=
  String.eqb s t ||
  match s with
  | EmptyString => false
  | String _ s' => endswith s' t
  end.

(** ASCII white space, as [str.split()] and [str.strip()] see it. *)
Definition is_space (c : ascii) : bool :=
  let n := nat_of_ascii c in
  ((9 <=? n)%nat && (n <=? 13)%nat) || ((28 <=? n)%nat && (n <=? 32)%nat).

Fixpoint lstrip (s : string) : string :=
  match s with
  | EmptyString => EmptyString
  | String c s' => if is_space c then lstrip s' else s
  end.

(** [rstrip] keeps a character when it, or something after it, is not
    a space. *)
Fixpoint rstrip (s : string) : string :=
  match s with
  | EmptyString => EmptyString
  | String c s' =>
      match rstrip s' with
      | EmptyString => if is_space c then EmptyString else String c EmptyString
      | r => String c r
      end
  end.

(** [s.strip()] *)
Definition strip (s : string) : string := rstrip (lstrip s).

(** [s.split()]: the maximal runs of non-space characters.  [cur] is
    the run being read, reversed. *)
Fixpoint split_ws_aux (cur : list ascii) (s : string) : list string :=
  let flush rest :=
    match cur with
    | [] => rest
    | _ => string_of_list_ascii (rev cur) :: rest
    end in
  match s with
  | EmptyString => flush []
  | String c s' =>
      if is_space c then flush (split_ws_aux [] s')
      else split_ws_aux (c :: cur) s'
  end.

Definition split_ws (s : string) : list string := split_ws_aux [] s.

(** [s.split("\n")]: always at least one piece. *)
Fixpoint split_lines_aux (cur : list ascii) (s : string) : list string :=
  match s with
  | EmptyString => [string_of_list_ascii (rev cur)]
  | String c s' =>
      if Ascii.eqb c (ascii_of_nat 10)
      then string_of_list_ascii (rev cur) :: split_lines_aux [] s'
      else split_lines_aux (c :: cur) s'
  end.

Definition split_lines (s : string) : list string := split_lines_aux [] s.

(** [sep.join(parts)] *)
Fixpoint join (sep : string) (parts : list string) : string :=
  match parts with
  | [] => EmptyString
  | [p] => p
  | p :: rest => p +:+ sep +:+ join sep rest
  end.

(** [s.replace(old, new)] for a non-empty [old]: left to right, without
    overlap.  [skip] counts the characters of a match still to drop. *)
Fixpoint replace_aux (old new : string) (skip : nat) (s : string) : string :=
  match s with
  | EmptyString => EmptyString
  | String c s' =>
      match skip with
      | S k => replace_aux old new k s'
      | O =>
          if startswith s old
          then new +:+ replace_aux old new (String.length old - 1) s'
          else String c (replace_aux old new 0 s')
      end
  end.

Definition replace (s old new : string) : string := replace_aux old new 0 s.

(** [str(n)] for a natural number. *)
Definition of_nat (n : nat) : string := NilZero.string_of_uint (Nat.to_uint n).

(** [str(z)] for an integer. *)
Definition of_Z (z : Z) : string :=
  if z <? 0 then "-" +:+ of_nat (Z.to_nat (- z)) else of_nat (Z.to_nat z).

Definition is_digit (c : ascii) : bool :=
  let n := nat_of_ascii c in (48 <=? n)%nat && (n <=? 57)%nat.

Fixpoint digits_value (acc : Z) (s : string) : option Z :=
  match s with
  | EmptyString => Some acc
  | String c s' =>
      if is_digit c
      then digits_value (10 * acc + Z.of_nat (nat_of_ascii c - 48)) s'
      else None
  end.

Definition unsigned_value (s : string) : option Z :=
  match s with
  | EmptyString => None
  | _ => digits_value 0 s
  end.

(** [int(s)] on decimal numerals: surrounding white space is dropped,
    one sign is allowed, at least one digit is required.  [None] is
    [ValueError]. *)
Definition int (s : string) : option Z :=
  match strip s with
  | String "-" r => Z.opp <$> unsigned_value r
  | String "+" r => unsigned_value r
  | r => unsigned_value r
  end.

End PyStr.

(* ===================================================================== *)
(** ** The catalog store ([backend/database.py]) *)
(* ===================================================================== *)

Module Database.

(** A row of [aisles]: [name TEXT NOT NULL UNIQUE], [section],
    [grid_x] and [grid_y INTEGER NOT NULL]. *)
Record Aisle := {
  a_name : string;
  a_section : string;
  grid_x : Z;
  grid_y : Z
}.

#[global] Instance Aisle_eq_dec : EqDecision Aisle.
Proof. solve_decision. Defined.

(** A row of [get_all_products]: the product columns the core reads,
    joined ([LEFT JOIN]) with the aisle's name and section, which are
    [None] for a product without aisle.  The record covers the rows whose
    [brand], [category] and [keywords] hold a text and whose [variants]
    decode to a list of texts.  The schema does not forbid a NULL in
    these columns, nor another JSON value in [variants]; on such a row
    [product.get("brand", "").lower()] and the [join] over the variants
    raise, and no statement below speaks about it. *)
Record Product := {
  name : string;
  brand : string;
  category : string;
  keywords : string;
  variants : list string;
  price : Q;
  quantity : string;
  shelf : Z;
  aisle_name : option string;
  section : option string
}.

(** The database: [store_config] is a table of text values. *)
Record Store := {
  store_config : gmap string string;
  all_aisles : list Aisle;
  all_products : list Product
}.

Definition get_config (db : Store) (key : string) : option string :=
  store_config db !! key.

Definition get_all_aisles (db : Store) : list Aisle := all_aisles db.

Definition get_all_products (db : Store) : list Product := all_products db.

End Database.

(* ===================================================================== *)
(** ** Grid navigation ([backend/pathfinding.py]) *)
(* ===================================================================== *)

Module Pathfinding.
Import Database.

(** [int(get_config(key) or default)]: a missing or empty value gives
    the default, any other text goes through [int]. *)
Definition config_int (db : Store) (key : string) (default : Z) : option Z :=
  match get_config db key with
  | None => Some default
  | Some EmptyString => Some default
  | Some s => PyStr.int s
  end.

Definition in_grid (rows cols : Z) (p : Z * Z) : bool :=
  (0 <=? p.1) && (p.1 <? rows) && (0 <=? p.2) && (p.2 <? cols).

(** One turn of the loop over the aisles. *)
Definition place_aisle (rows cols : Z)
    (acc : list (list Z) * gmap string (Z * Z)) (aisle : Aisle)
    : list (list Z) * gmap string (Z * Z) :=
  let x := grid_x aisle in
  let y := grid_y aisle in
  if in_grid rows cols (x, y)
  then (alter (fun row => <[Z.to_nat y := 1]> row) (Z.to_nat x) acc.1,
        <[a_name aisle := (x, y)]> acc.2)
  else acc.

Definition empty_grid (rows cols : Z) : list (list Z) :=
  replicate (Z.to_nat rows) (replicate (Z.to_nat cols) 0).

Definition fill_grid (rows cols : Z) (aisles : list Aisle)
    : list (list Z) * gmap string (Z * Z) :=
  fold_left (place_aisle rows cols) aisles (empty_grid rows cols, ∅).

Definition build_store_grid (db : Store)
    : option (list (list Z) * Z * Z * gmap string (Z * Z)) :=
  rows ← config_int db "grid_rows" 6;
  cols ← config_int db "grid_cols" 5;
  let '(grid, aisle_positions) := fill_grid rows cols (get_all_aisles db) in
  Some (grid, rows, cols, aisle_positions).

(** *** Breadth-first search *)

Definition directions : list (Z * Z) := [(0, 1); (0, -1); (1, 0); (-1, 0)].

(** What the loop over the four directions leaves: the path, when the
    target was reached, or the new visited set and queue. *)
Inductive scan_result :=
| Reached (new_path : list (Z * Z))
| Scanned (visited : gset (Z * Z)) (queue : list ((Z * Z) * list (Z * Z))).

Fixpoint scan (dirs : list (Z * Z)) (x y : Z) (path : list (Z * Z))
    (target : Z * Z) (rows cols : Z)
    (visited : gset (Z * Z)) (queue : list ((Z * Z) * list (Z * Z)))
    : scan_result :=
  match dirs with
  | [] => Scanned visited queue
  | (dx, dy) :: dirs' =>
      let nx := x + dx in
      let ny := y + dy in
      if in_grid rows cols (nx, ny) && negb (bool_decide ((nx, ny) ∈ visited))
      then
        let visited' := {[ (nx, ny) ]} ∪ visited in
        let new_path := path ++ [(nx, ny)] in
        if bool_decide ((nx, ny) = target)
        then Reached new_path
        else scan dirs' x y path target rows cols visited'
                  (queue ++ [((nx, ny), new_path)])
      else scan dirs' x y path target rows cols visited queue
  end.

(** The result of [bfs_path]: a path, Python's [None], or the model's
    fuel running out (which [bfs_path_total] excludes). *)
Inductive bfs_result :=
| Path (path : list (Z * Z))
| NoPath
| OutOfFuel.

(** The [while queue] loop, one turn per unit of fuel. *)
Fixpoint bfs_loop (fuel : nat) (target : Z * Z) (rows cols : Z)
    (visited : gset (Z * Z)) (queue : list ((Z * Z) * list (Z * Z)))
    : bfs_result :=
  match queue with
  | [] => NoPath
  | ((x, y), path) :: queue' =>
      match fuel with
      | O => OutOfFuel
      | S fuel' =>
          match scan directions x y path target rows cols visited queue' with
          | Reached new_path => Path new_path
          | Scanned visited' queue'' =>
              bfs_loop fuel' target rows cols visited' queue''
          end
      end
  end.

(** Every cell is enqueued at most once, so one turn per cell and one
    for the start are enough. *)
Definition bfs_fuel (rows cols : Z) : nat :=
  S (Z.to_nat rows * Z.to_nat cols).

Definition bfs_path (grid : list (list Z)) (start target : Z * Z)
    (rows cols : Z) : bfs_result :=
  if bool_decide (start = target) then Path [start]
  else bfs_loop (bfs_fuel rows cols) target rows cols {[ start ]}
                [(start, [start])].

(** *** Directions text *)

Definition direction_name (d : Z * Z) : string :=
  if bool_decide (d = (0, 1)) then "right"
  else if bool_decide (d = (0, -1)) then "left"
  else if bool_decide (d = (1, 0)) then "forward"
  else if bool_decide (d = (-1, 0)) then "back"
  else "forward".

(** [path[i + 1] - path[i]] for every [i]. *)
Fixpoint deltas (path : list (Z * Z)) : list (Z * Z) :=
  match path with
  | p :: (q :: _) as rest => (q.1 - p.1, q.2 - p.2) :: deltas rest
  | _ => []
  end.

(** The inner [while]: how many of the next steps repeat [d]. *)
Fixpoint same_run (d : Z * Z) (ds : list (Z * Z)) : nat :=
  match ds with
  | d' :: ds' => if bool_decide (d' = d) then S (same_run d ds') else O
  | [] => O
  end.

Definition phrase (d : Z * Z) (steps : nat) : string :=
  if bool_decide (steps = 1%nat)
  then "Go " +:+ direction_name d
  else "Go " +:+ direction_name d +:+ " for " +:+ PyStr.of_nat steps +:+ " sections".

(** The outer [while]: [ds] holds the steps from index [i] on. *)
Fixpoint phrases (fuel : nat) (ds : list (Z * Z)) : list string :=
  match fuel, ds with
  | S fuel', d :: rest =>
      let steps := S (same_run d rest) in
      phrase d steps :: phrases fuel' (drop (same_run d rest) rest)
  | _, _ => []
  end.

(** The separator, byte for byte as the source file has it. *)
Definition separator : string := " â†’ ".

Definition path_to_directions (path : list (Z * Z)) : string :=
  if (length path <? 2)%nat then "You're already there!"
  else PyStr.join separator (phrases (length path) (deltas path)).

(** *** Directions to a product *)

Record DirectionResult := {
  found : bool;
  directions_text : string;
  path : list (Z * Z);
  target : option (Z * Z);
  entrance : Z * Z;
  steps : option Z
}.

(** How an f-string renders a value that may be [None]. *)
Definition fmt (s : option string) : string := default "None" s.

Definition not_found (aisle : option string) (start : Z * Z) : DirectionResult :=
  {| found := false;
     directions_text :=
       "Sorry, I couldn't find the location for aisle " +:+ fmt aisle +:+ ".";
     path := [];
     target := None;
     entrance := start;
     steps := None |}.

Definition get_directions_to_product (db : Store) (product : Product)
    : option DirectionResult :=
  '(grid, rows, cols, aisle_positions) ← build_store_grid db;
  entrance_x ← config_int db "entrance_x" 0;
  entrance_y ← config_int db "entrance_y" 0;
  let start := (entrance_x, entrance_y) in
  match aisle_name product ≫= (fun n => (n,.) <$> aisle_positions !! n) with
  | None => Some (not_found (aisle_name product) start)
  | Some (name, tgt) =>
      match bfs_path grid start tgt rows cols with
      | OutOfFuel => None
      | NoPath =>
          Some {| found := false;
                  directions_text :=
                    "Sorry, I couldn't find a path to aisle " +:+ name +:+ ".";
                  path := [];
                  target := Some tgt;
                  entrance := start;
                  steps := None |}
      | Path p =>
          Some {| found := true;
                  directions_text :=
                    "Head to **Aisle " +:+ name +:+ "** (" +:+ fmt (section product)
                      +:+ "): " +:+ path_to_directions p;
                  path := p;
                  target := Some tgt;
                  entrance := start;
                  steps := Some (Z.of_nat (length p) - 1) |}
      end
  end.

End Pathfinding.

(* ===================================================================== *)
(** ** Product search ([backend/search.py]) *)
(* ===================================================================== *)

Module Search.
Import Database.

(** *** Interfaces of the libraries the search calls *)

(** rapidfuzz: every scorer returns a similarity between 0 and 100. *)
Class Rapidfuzz := {
  WRatio : string -> string -> Q;
  partial_ratio : string -> string -> Q;
  token_set_ratio : string -> string -> Q;
  WRatio_range : forall a b, (0 <= WRatio a b <= 100)%Q;
  partial_ratio_range : forall a b, (0 <= partial_ratio a b <= 100)%Q;
  token_set_ratio_range : forall a b, (0 <= token_set_ratio a b <= 100)%Q
}.

(** pyspellchecker: [spell_unknown w] is [_spell.unknown([w])] being
    non-empty for the checker loaded with the product vocabulary,
    [english_unknown] the same for a fresh checker, [spell_correction]
    is [_spell.correction]. *)
Class SpellChecker := {
  spell_unknown : string -> bool;
  english_unknown : string -> bool;
  spell_correction : string -> option string
}.

(** The remote matcher: whether a client could be built, and the index
    list read from its reply ([None] when the call fails or the reply
    holds no bracketed list). *)
Class Matcher := {
  client_available : bool;
  reply_indices : string -> list Product -> option (list Z)
}.

(** *** Scores *)

(** [max(a, b)] on numbers: [b] only when it is larger. *)
Definition pymax (a b : Q) : Q :=
  match (a ?= b)%Q with
  | Lt => b
  | _ => a
  end.

(** Rounding to the nearest integer, ties to even. *)
Definition round_half_even (q : Q) : Z :=
  let f := Qfloor q in
  match (q - inject_Z f ?= 1 # 2)%Q with
  | Lt => f
  | Gt => f + 1
  | Eq => if Z.even f then f else f + 1
  end.

(** [round(q, 1)] *)
Definition round1 (q : Q) : Q := round_half_even (q * 10) # 10.

(** [l[:n]] *)
Definition slice_to {A} (n : Z) (l : list A) : list A :=
  if 0 <=? n then take (Z.to_nat n) l
  else take (length l - Z.to_nat (- n)) l.

(** A product with its [match_score]. *)
Definition Scored : Type := Product * Q.

Definition match_score (r : Scored) : Q := r.2.

(** *** Spell correction *)

Section Correct.
Context `{SpellChecker}.

Definition correct_word (word : string) : string :=
  if spell_unknown word && english_unknown word
  then match spell_correction word with
       | Some (String _ _ as correction) => correction
       | _ => word
       end
  else word.

Definition correct_query (query : string) : string :=
  PyStr.join " " (correct_word <$> PyStr.split_ws (PyStr.lower query)).
End Correct.

(** *** Intent map *)

Definition INTENT_MAP : list (string * list string) :=
  [ ("cold", ["cold"; "flu"; "fever"; "cough"; "sardi"; "khansi"; "bukhar"; "paracetamol"]);
    ("headache", ["headache"; "pain relief"; "paracetamol"; "fever"]);
    ("fever", ["fever"; "paracetamol"; "bukhar"; "cold"]);
    ("hungry", ["snack"; "biscuit"; "chips"; "namkeen"; "chocolate"]);
    ("thirsty", ["water"; "juice"; "cold drink"; "soda"; "paani"]);
    ("breakfast", ["milk"; "bread"; "butter"; "tea"; "biscuit"; "chai"]);
    ("cooking", ["oil"; "spice"; "masala"; "salt"; "rice"; "atta"]);
    ("cleaning", ["soap"; "hand wash"; "sanitizer"; "dettol"]);
    ("hair", ["shampoo"; "hair care"; "hair wash"; "conditioner"]);
    ("teeth", ["toothpaste"; "dental"; "dant manjan"]);
    ("skin", ["face wash"; "cream"; "soap"; "skin care"]);
    ("baby", ["diaper"; "baby food"; "milk"; "powder"]);
    ("sweet", ["chocolate"; "biscuit"; "ice cream"; "candy"; "mithai"; "sugar"]);
    ("spicy", ["chili"; "masala"; "mirch"; "garam masala"]);
    ("drink", ["cold drink"; "juice"; "soda"; "water"; "coke"; "pepsi"]);
    ("fruit", ["banana"; "apple"; "mango"; "fruit"; "kela"; "seb"]);
    ("vegetable", ["tomato"; "onion"; "peas"; "sabji"; "tamatar"; "pyaaz"]) ].

(** One turn of the loop over the intent map. *)
Definition add_intent (query_lower : string) (expanded_terms : list string)
    (entry : string * list string) : list string :=
  if PyStr.contains entry.1 query_lower
  then expanded_terms ++ entry.2
  else expanded_terms.

(** The terms before [list(set(...))]. *)
Definition gather_terms (imap : list (string * list string))
    (query_lower : string) : list string :=
  fold_left (add_intent query_lower) imap [query_lower].

(** [list(set(expanded_terms))]: the distinct terms; the order in which
    a Python set lists them is not specified, and nothing below depends
    on it. *)
Definition expand_query (query : string) : list string :=
  let query_lower := PyStr.lower query in
  remove_dups (gather_terms INTENT_MAP query_lower).

(** *** Remote matcher *)

Section Llm.
Context `{Matcher}.

Definition add_index (products : list Product) (results : list Scored)
    (idx : Z) : list Scored :=
  if (1 <=? idx) && (idx <=? Z.of_nat (length products))
  then match products !! Z.to_nat (idx - 1) with
       | Some product =>
           results ++ [(product, inject_Z (100 - Z.of_nat (length results) * 5))]
       | None => results
       end
  else results.

(** [None] sends the caller to the fuzzy search. *)
Definition search_with_llm (query : string) (products : list Product)
    (top_n : Z) : option (list Scored) :=
  if negb client_available || bool_decide (products = []) then None
  else
    match reply_indices query products with
    | None => None
    | Some indices =>
        match fold_left (add_index products) indices [] with
        | [] => None
        | results => Some (slice_to top_n results)
        end
    end.
End Llm.

(** *** Fuzzy search *)

Section Fuzzy.
Context `{Rapidfuzz} `{SpellChecker}.

Definition weighted_sum (term name brand category keywords : string) : Q :=
  let name_score := pymax (WRatio term name) (partial_ratio term name) in
  let brand_score := WRatio term brand in
  let category_score := WRatio term category in
  let keyword_score := token_set_ratio term keywords in
  (name_score * 0.50 + keyword_score * 0.25
   + category_score * 0.15 + brand_score * 0.10)%Q.

(** The combined score of one term, after the overrides. *)
Definition term_score (term name brand category keywords : string) : Q :=
  let weighted := weighted_sum term name brand category keywords in
  if PyStr.contains term name then pymax weighted 95
  else if PyStr.startswith name term || PyStr.endswith name term
       then pymax weighted 92
  else if PyStr.contains term keywords then pymax weighted 75
  else weighted.

(** The loop over the expanded terms. *)
Definition best_score (expanded_terms : list string) (product : Product) : Q :=
  let name := PyStr.lower (name product) in
  let brand := PyStr.lower (brand product) in
  let category := PyStr.lower (category product) in
  let keywords := PyStr.lower (keywords product) in
  fold_left (fun best term =>
               pymax best (term_score term name brand category keywords))
            expanded_terms 0%Q.

(** The loop over the products. *)
Definition score_products (expanded_terms : list string)
    (score_threshold : Q) (products : list Product) : list Scored :=
  flat_map (fun product =>
              let best := best_score expanded_terms product in
              if Qle_bool score_threshold best
              then [(product, round1 best)]
              else [])
           products.

(** [sort(key = match_score, reverse = True)]: stable, so among equal
    scores the earlier product stays first. *)
Fixpoint insert_desc (r : Scored) (l : list Scored) : list Scored :=
  match l with
  | [] => [r]
  | r' :: l' =>
      if Qle_bool (match_score r') (match_score r)
      then r :: l
      else r' :: insert_desc r l'
  end.

Definition sort_desc (l : list Scored) : list Scored :=
  foldr insert_desc [] l.

Definition search_products_fuzzy (query : string) (products : list Product)
    (top_n : Z) (score_threshold : Q) : list Scored :=
  let corrected_query := correct_query query in
  let expanded_terms := expand_query corrected_query in
  let scored_products := score_products expanded_terms score_threshold products in
  slice_to top_n (sort_desc scored_products).
End Fuzzy.

(** *** Main search *)

Section Main.
Context `{Rapidfuzz} `{SpellChecker} `{Matcher}.

Definition search_products (db : Store) (query : string) (top_n : Z)
    (score_threshold : Q) : list Scored :=
  let products := get_all_products db in
  match products with
  | [] => []
  | _ =>
      match search_with_llm query products top_n with
      | Some ((_ :: _) as llm_results) => llm_results
      | _ => search_products_fuzzy query products top_n score_threshold
      end
  end.
End Main.

End Search.

(* ===================================================================== *)
(** ** Reply pipeline ([backend/search.py] formatters, [backend/ai_pipeline.py]) *)
(* ===================================================================== *)

Module Pipeline.
Import Database Pathfinding Search.

(** *** Context formatters *)

(** [f"{price:.0f}"] *)
Definition fmt_price (price : Q) : string := PyStr.of_Z (round_half_even price).

(** [parts[-1] += suffix] *)
Definition append_last (parts : list string) (suffix : string) : list string :=
  match reverse parts with
  | [] => []
  | p :: before => reverse before ++ [p +:+ suffix]
  end.

Definition truthy (s : option string) : bool :=
  match s with
  | Some (String _ _) => true
  | _ => false
  end.

Definition format_product_for_llm (product : Product) : string :=
  let parts := ["- **" +:+ name product +:+ "**"] in
  let parts :=
    if bool_decide (brand product = "") then parts
    else append_last parts (" (Brand: " +:+ brand product +:+ ")") in
  let parts :=
    if Qeq_bool (price product) 0 then parts
    else parts ++ ["  Price: ₹" +:+ fmt_price (price product)] in
  let parts :=
    if bool_decide (quantity product = "") then parts
    else append_last parts (" / " +:+ quantity product) in
  let parts :=
    if bool_decide (category product = "") then parts
    else parts ++ ["  Category: " +:+ category product] in
  let parts :=
    if truthy (aisle_name product)
    then parts ++ ["  Location: Aisle " +:+ fmt (aisle_name product)
                    +:+ ", Shelf " +:+ PyStr.of_Z (shelf product)]
    else parts in
  let parts :=
    if truthy (section product)
    then parts ++ ["  Section: " +:+ fmt (section product)]
    else parts in
  let parts :=
    match variants product with
    | [] => parts
    | vs => parts ++ ["  Available in: " +:+ PyStr.join ", " vs]
    end in
  PyStr.join PyStr.nl parts.

Definition no_match_context : string :=
  "No matching products found in the store inventory.".

Definition format_search_results_for_llm (products : list Scored) : string :=
  match products with
  | [] => no_match_context
  | _ =>
      PyStr.join PyStr.nl
        (("Here are the matching products from the store inventory:" +:+ PyStr.nl)
         :: flat_map (fun r => [format_product_for_llm r.1; ""]) products)
  end.

Definition build_context_prompt (user_query : string)
    (search_results : list Scored) (directions_info : option DirectionResult)
    : string :=
  let context_parts :=
    match search_results with
    | [] => []
    | _ => [format_search_results_for_llm search_results]
    end in
  let context_parts :=
    match directions_info with
    | Some d =>
        if found d
        then context_parts ++ [PyStr.nl +:+ "Directions: " +:+ directions_text d]
        else context_parts
    | None => context_parts
    end in
  match context_parts with
  | [] => no_match_context
  | _ => PyStr.join PyStr.nl context_parts
  end.

(** *** Fallback reply *)

Record Message := { role : string; content : string }.

(** [random.choice(options)], the draw being [pick]. *)
Definition choice (pick : nat) (options : list string) : string :=
  nth (pick mod length options) options "".

Definition no_match : list string :=
  [ "I couldn't find that in our store. Try a different search term or category (e.g., 'snacks', 'dairy', 'personal care').";
    "No exact match. Try broader terms like the product category or brand name.";
    "Sorry, that doesn't seem to be in stock. Can you describe it differently?" ].

Definition generic : list string :=
  [ "Hi! Type what you're looking for — like 'milk', 'shampoo', or 'something for a cold' — and I'll find it.";
    "I'm here to help you find products. What do you need today?";
    "Welcome! Just tell me what you're looking for." ].

(** The reply built from the product lines of the context. *)
Definition found_response (lines : list string) : string :=
  let location_lines :=
    PyStr.strip <$> filter (fun l => PyStr.contains "Location:" l = true) lines in
  let location_info :=
    match location_lines with
    | [] => ""
    | l :: _ => PyStr.strip (PyStr.replace l "Location:" "")
    end in
  let direction_line :=
    match filter (fun l => PyStr.startswith (PyStr.strip l) "Directions:" = true) lines with
    | [] => ""
    | line :: _ => PyStr.strip (PyStr.replace (PyStr.strip line) "Directions:" "")
    end in
  let response :=
    if bool_decide (location_info = "") then "Here's what I found."
    else "📍 Found at **" +:+ location_info +:+ "**." in
  if bool_decide (direction_line = "") then response
  else response +:+ PyStr.nl +:+ PyStr.nl +:+ "🚶 " +:+ direction_line.

Definition generate_fallback_response (pick : nat) (messages : list Message)
    : string :=
  let last_msg := default "" (content <$> last messages) in
  let lines := PyStr.split_lines last_msg in
  let product_lines :=
    filter (fun l => PyStr.startswith l "- **" = true) (PyStr.strip <$> lines) in
  if PyStr.contains "matching products from the store inventory" last_msg
     && negb (bool_decide (product_lines = []))
  then found_response lines
  else if PyStr.contains "No matching products found" last_msg
  then choice pick no_match
  else choice pick generic.

Definition generate_llm_response (pick : nat) (messages : list Message) : string :=
  generate_fallback_response pick messages.

(** *** Chat *)

Definition SYSTEM_PROMPT (store_name : string) : string :=
  PyStr.join PyStr.nl
    [ "You are a friendly and helpful supermarket shopping assistant. You help customers find products in the store.";
      "";
      "RULES:";
      "1. You ONLY answer questions about products and their locations in THIS store.";
      "2. When product information is provided in the context, use it to give specific aisle and shelf locations.";
      "3. If no matching products are found, politely say you couldn't find that product and suggest alternatives.";
      "4. Keep responses short, conversational, and helpful (2-3 sentences max).";
      "5. If the customer asks a follow-up, remember the conversation context.";
      "6. Always mention the aisle name and shelf number when giving directions.";
      "7. Be warm and use phrases like " +:+ PyStr.dq +:+ "Sure!" +:+ PyStr.dq +:+ ", "
        +:+ PyStr.dq +:+ "Great choice!" +:+ PyStr.dq +:+ ", "
        +:+ PyStr.dq +:+ "Let me help you find that!" +:+ PyStr.dq;
      "8. If asked about things unrelated to the store, politely redirect to shopping assistance.";
      "";
      "STORE NAME: " +:+ store_name;
      "" ].

Definition augmented_query (user_query context : string) : string :=
  PyStr.join PyStr.nl
    [ "Customer's question: " +:+ PyStr.dq +:+ user_query +:+ PyStr.dq;
      "";
      "Store inventory search results:";
      context;
      "";
      "Please respond to the customer's question using the information above. Be conversational and helpful." ].

(** [history[-6:]] *)
Definition last_six {A} (history : list A) : list A :=
  drop (length history - 6) history.

Record ChatResult := {
  response : string;
  products : list Scored;
  directions : option DirectionResult;
  query : string
}.

Section Chat.
Context `{Rapidfuzz} `{SpellChecker} `{Matcher}.

(** [pick] is the draw of [random.choice]; [None] is an exception
    out of the navigator. *)
Definition chat (db : Store) (pick : nat) (user_query : string)
    (conversation_history : list Message) : option ChatResult :=
  let search_results := search_products db user_query 3 50 in
  directions_info ←
    match search_results with
    | [] => Some None
    | top :: _ => Some <$> get_directions_to_product db top.1
    end;
  let context := build_context_prompt user_query search_results directions_info in
  let store_name :=
    match get_config db "store_name" with
    | Some (String _ _ as n) => n
    | _ => "My Supermarket"
    end in
  let messages :=
    [{| role := "system"; content := SYSTEM_PROMPT store_name |}]
    ++ last_six conversation_history
    ++ [{| role := "user"; content := augmented_query user_query context |}] in
  let response_text := generate_llm_response pick messages in
  Some {| response := response_text;
          products := search_results;
          directions := directions_info;
          query := user_query |}.
End Chat.

End Pipeline.

(* ===================================================================== *)
(** ** The search endpoint ([backend/api.py]) *)
(* ===================================================================== *)

Module Api.
Import Database Search.

(** The reply of [GET /search]: status 400 with an error, or the results. *)
Inductive SearchResponse :=
| BadRequest (error : string)
| Results (results : list Scored) (query : string).

Section Endpoint.
Context `{Rapidfuzz} `{SpellChecker} `{Matcher}.

(** [q] and [n] are the request arguments, [None] when absent; the
    outer [None] is [int] raising on [n]. *)
Definition search_endpoint (db : Store) (q n : option string)
    : option SearchResponse :=
  let query := PyStr.strip (default "" q) in
  top_n ← match n with
          | None => Some 5
          | Some s => PyStr.int s
          end;
  if bool_decide (query = "")
  then Some (BadRequest "No query provided")
  else Some (Results (search_products db query top_n 50) query).
End Endpoint.

End Api.

(* ===================================================================== *)
(** ** Writing the configuration ([backend/database.py], [backend/api.py]) *)
(* ===================================================================== *)

Module Settings.
Import Database.

(** What callers hand to [set_config]: a number or a text. *)
Inductive Value :=
| IntValue (z : Z)
| TextValue (s : string).

(** [str(value)] *)
Definition str (value : Value) : string :=
  match value with
  | IntValue z => PyStr.of_Z z
  | TextValue s => s
  end.

(** [INSERT OR REPLACE INTO store_config (key, value) VALUES (?, str(value))] *)
Definition set_config (db : Store) (key : string) (value : Value) : Store :=
  {| store_config := <[key := str value]> (store_config db);
     all_aisles := all_aisles db;
     all_products := all_products db |}.

Definition get_all_config (db : Store) : gmap string string := store_config db.

(** [POST /config]: one [set_config] per item of the request, in order. *)
Definition update_store_config (db : Store) (data : list (string * Value)) : Store :=
  fold_left (fun db item => set_config db item.1 item.2) data db.

End Settings.

(* ===================================================================== *)
(** ** Facts about the string builtins *)
(* ===================================================================== *)

Module PyStrFacts.
Import PyStr.

Lemma startswith_spec s t :
  startswith s t = true <-> exists v, s = t +:+ v.
Proof.
  revert s; induction t as [|b t IH]; intros s; simpl.
  - split; [intros _; by exists s | done].
  - destruct s as [|a s]; simpl.
    + split; [done | intros [v Hv]; discriminate].
    + destruct (Ascii.eqb_spec a b) as [->|Hne].
      * rewrite IH. split; intros [v Hv]; exists v; [by rewrite Hv | by injection Hv].
      * split; [done | intros [v Hv]; injection Hv; intros; by subst].
Qed.

Lemma contains_spec t s :
  contains t s = true <-> exists u v, s = u +:+ t +:+ v.
Proof.
  induction s as [|a s IH]; simpl.
  - rewrite orb_false_r, startswith_spec. split.
    + intros [v Hv]. by exists "", v.
    + intros [u [v Hv]]. destruct u; [by exists v | discriminate].
  - rewrite orb_true_iff, startswith_spec, IH. split.
    + intros [[v Hv] | [u [v Hv]]].
      * by exists "", v.
      * exists (String a u), v. simpl. by rewrite Hv.
    + intros [u [v Hv]]. destruct u as [|c u]; simpl in Hv.
      * left. by exists v.
      * right. injection Hv as -> Hv. by exists u, v.
Qed.

Lemma endswith_spec s t :
  endswith s t = true <-> exists u, s = u +:+ t.
Proof.
  induction s as [|a s IH]; cbn [endswith].
  - rewrite orb_false_r, String.eqb_eq. split.
    + intros <-. by exists "".
    + intros [u Hu]. destruct u; [done | discriminate].
  - rewrite orb_true_iff, String.eqb_eq, IH. split.
    + intros [<- | [u Hu]]; [by exists "" |].
      exists (String a u). simpl. by rewrite Hu.
    + intros [u Hu]. destruct u as [|c u]; simpl in Hu.
      * by left.
      * right. injection Hu as -> Hu. by exists u.
Qed.

Lemma append_empty_r s : s +:+ "" = s.
Proof. induction s as [|a s IH]; [done | exact (f_equal (String a) IH)]. Qed.

Lemma startswith_contains s t : startswith s t = true -> contains t s = true.
Proof.
  rewrite startswith_spec, contains_spec. intros [v Hv]. by exists "", v.
Qed.

Lemma endswith_contains s t : endswith s t = true -> contains t s = true.
Proof.
  rewrite endswith_spec, contains_spec. intros [u Hu].
  exists u, "". by rewrite append_empty_r.
Qed.

Lemma contains_empty s : contains "" s = true.
Proof. destruct s; reflexivity. Qed.

Lemma contains_refl s : contains s s = true.
Proof.
  apply contains_spec. exists "", "". simpl. by rewrite append_empty_r.
Qed.

End PyStrFacts.

(* ===================================================================== *)
(** ** Breadth-first search: termination *)
(* ===================================================================== *)

Module BfsTermination.
Import Database Pathfinding.

Lemma in_grid_spec rows cols p :
  in_grid rows cols p = true <-> (0 <= p.1 < rows /\ 0 <= p.2 < cols).
Proof. unfold in_grid. rewrite !andb_true_iff. lia. Qed.

(** The cells of the grid, as a finite set. *)
Definition cells (rows cols : Z) : gset (Z * Z) :=
  list_to_set (list_prod (seqZ 0 rows) (seqZ 0 cols)).

Lemma elem_of_cells rows cols p :
  p ∈ cells rows cols <-> in_grid rows cols p = true.
Proof.
  destruct p as [x y]. unfold cells.
  rewrite elem_of_list_to_set, list_elem_of_In, in_prod_iff.
  rewrite <- !list_elem_of_In, !elem_of_seqZ, in_grid_spec. simpl. lia.
Qed.

Lemma size_list_to_set_le (l : list (Z * Z)) :
  (size (list_to_set l : gset (Z * Z)) <= length l)%nat.
Proof.
  induction l as [|p l IH].
  - done.
  - rewrite list_to_set_cons, size_union_alt, size_singleton. simpl.
    assert (size (list_to_set l ∖ {[p]} : gset (Z * Z))
            <= size (list_to_set l : gset (Z * Z)))%nat
      by (apply subseteq_size; set_solver).
    lia.
Qed.

Lemma size_cells rows cols :
  (size (cells rows cols) <= Z.to_nat rows * Z.to_nat cols)%nat.
Proof.
  unfold cells. etrans; [apply size_list_to_set_le|].
  by rewrite length_prod, !length_seqZ.
Qed.

(** Queue entries still to process plus cells not yet seen: every turn
    of the [while] loop takes one off. *)
Definition measure (rows cols : Z) (visited : gset (Z * Z))
    (queue : list ((Z * Z) * list (Z * Z))) : nat :=
  (length queue + size (cells rows cols ∖ visited))%nat.

Lemma measure_visit rows cols visited queue p e :
  in_grid rows cols p = true -> p ∉ visited ->
  measure rows cols ({[ p ]} ∪ visited) (queue ++ [e])
  = measure rows cols visited queue.
Proof.
  intros Hin Hnew. unfold measure. rewrite length_app. simpl.
  apply elem_of_cells in Hin.
  assert (cells rows cols ∖ visited
          = {[ p ]} ∪ (cells rows cols ∖ ({[ p ]} ∪ visited))) as ->.
  { apply set_eq. intros q.
    rewrite elem_of_union, !elem_of_difference, elem_of_union, elem_of_singleton.
    destruct (decide (q = p)) as [->|]; naive_solver. }
  rewrite (size_union {[ p ]} (cells rows cols ∖ ({[ p ]} ∪ visited)))
    by set_solver.
  rewrite size_singleton. lia.
Qed.

Lemma scan_measure rows cols target dirs x y path visited queue visited' queue' :
  scan dirs x y path target rows cols visited queue = Scanned visited' queue' ->
  measure rows cols visited' queue' = measure rows cols visited queue.
Proof.
  revert visited queue.
  induction dirs as [|[dx dy] dirs IH]; intros visited queue; simpl.
  - intros [= <- <-]. done.
  - destruct (in_grid rows cols (x + dx, y + dy)) eqn:Hin; simpl; [|apply IH].
    case_bool_decide as Hvis; simpl; [apply IH|].
    case_bool_decide; [done|].
    intros Hscan. apply IH in Hscan. rewrite Hscan.
    by apply measure_visit.
Qed.

Lemma bfs_loop_total fuel target rows cols visited queue :
  (measure rows cols visited queue <= fuel)%nat ->
  bfs_loop fuel target rows cols visited queue <> OutOfFuel.
Proof.
  revert visited queue.
  induction fuel as [|fuel IH]; intros visited queue Hfuel;
    destruct queue as [|[[x y] path] queue]; cbn [bfs_loop]; try done.
  - unfold measure in Hfuel. simpl in Hfuel. lia.
  - destruct (scan directions x y path target rows cols visited queue)
      as [p|visited' queue'] eqn:Hscan; [done|].
    apply IH. apply scan_measure in Hscan. rewrite Hscan.
    unfold measure in *. simpl in Hfuel. lia.
Qed.

Lemma initial_measure rows cols start :
  (measure rows cols {[ start ]} [(start, [start])] <= bfs_fuel rows cols)%nat.
Proof.
  unfold measure, bfs_fuel. simpl.
  pose proof (size_cells rows cols).
  assert (size (cells rows cols ∖ {[ start ]}) <= size (cells rows cols))%nat
    by (apply subseteq_size; set_solver).
  lia.
Qed.

(** The fuel of [bfs_path] never runs out, whatever the arguments. *)
Lemma bfs_path_total grid start target rows cols :
  bfs_path grid start target rows cols <> OutOfFuel.
Proof.
  unfold bfs_path. case_bool_decide; [done|].
  apply bfs_loop_total, initial_measure.
Qed.

End BfsTermination.

(* ===================================================================== *)
(** ** Breadth-first search: the path found is a shortest one *)
(* ===================================================================== *)

Module BfsCorrectness.
Import Database Pathfinding BfsTermination.

Definition manhattan (p q : Z * Z) : Z :=
  Z.abs (p.1 - q.1) + Z.abs (p.2 - q.2).

(** [q] differs from [p] by one unit in exactly one coordinate. *)
Definition unit_step (p q : Z * Z) : Prop :=
  (Z.abs (q.1 - p.1) = 1 /\ q.2 = p.2) \/ (q.1 = p.1 /\ Z.abs (q.2 - p.2) = 1).

Fixpoint stepwise (path : list (Z * Z)) : Prop :=
  match path with
  | p :: (q :: _) as rest => unit_step p q /\ stepwise rest
  | _ => True
  end.

(** A walk from [start] to [target] with as few cells as the grid allows. *)
Record shortest_walk (start target : Z * Z) (path : list (Z * Z)) : Prop := {
  walk_head : head path = Some start;
  walk_last : last path = Some target;
  walk_steps : stepwise path;
  walk_length : Z.of_nat (length path) = manhattan start target + 1
}.

Definition move (p dir : Z * Z) : Z * Z := (p.1 + dir.1, p.2 + dir.2).

Lemma stepwise_snoc path p q :
  stepwise path -> last path = Some p -> unit_step p q ->
  stepwise (path ++ [q]).
Proof.
  induction path as [|a [|b path] IH]; simpl; intros Hsteps Hlast Hstep.
  - done.
  - injection Hlast as ->. done.
  - destruct Hsteps as [Hab Hrest]. split; [done|]. by apply IH.
Qed.

Lemma head_snoc {A} (l : list A) (x y : A) :
  head l = Some x -> head (l ++ [y]) = Some x.
Proof. by destruct l. Qed.

Lemma move_unit_step p dir : dir ∈ directions -> unit_step p (move p dir).
Proof.
  unfold directions. rewrite !elem_of_cons, elem_of_nil.
  unfold unit_step, move.
  intros [->|[->|[->|[->|[]]]]]; simpl; lia.
Qed.

Lemma unit_step_move p q :
  unit_step p q -> exists dir, dir ∈ directions /\ q = move p dir.
Proof.
  destruct p as [px py], q as [qx qy]. unfold unit_step, move. simpl.
  intros Hstep.
  assert ((qx = px /\ qy = py + 1) \/ (qx = px /\ qy = py - 1)
          \/ (qx = px + 1 /\ qy = py) \/ (qx = px - 1 /\ qy = py))
    as [[-> ->]|[[-> ->]|[[-> ->]|[-> ->]]]] by lia.
  - exists (0, 1). split; [set_solver | simpl; f_equal; lia].
  - exists (0, -1). split; [set_solver | simpl; f_equal; lia].
  - exists (1, 0). split; [set_solver | simpl; f_equal; lia].
  - exists (-1, 0). split; [set_solver | simpl; f_equal; lia].
Qed.

Lemma unit_step_dist start p q :
  unit_step p q ->
  manhattan start q = manhattan start p + 1
  \/ manhattan start q = manhattan start p - 1.
Proof. unfold unit_step, manhattan. lia. Qed.

Section Invariant.
Variables (rows cols : Z) (start target : Z * Z).
Hypothesis Hstart : in_grid rows cols start = true.

Abbreviation inb p := (in_grid rows cols p = true).
Abbreviation dist p := (manhattan start p).
Abbreviation entry := ((Z * Z) * list (Z * Z))%type.

(** Towards the start there is always a cell of the grid. *)
Lemma step_back v :
  inb v -> 1 <= dist v ->
  exists u, inb u /\ unit_step u v /\ dist u = dist v - 1.
Proof.
  destruct v as [vx vy], start as [sx sy] eqn:Hs.
  rewrite !in_grid_spec in *. unfold manhattan. simpl in *.
  intros Hv Hd.
  destruct (Z.lt_trichotomy vx sx) as [Hx|[Hx|Hx]].
  - exists (vx + 1, vy). rewrite in_grid_spec. unfold unit_step. simpl. lia.
  - destruct (Z.lt_trichotomy vy sy) as [Hy|[Hy|Hy]].
    + exists (vx, vy + 1). rewrite in_grid_spec. unfold unit_step. simpl. lia.
    + lia.
    + exists (vx, vy - 1). rewrite in_grid_spec. unfold unit_step. simpl. lia.
  - exists (vx - 1, vy). rewrite in_grid_spec. unfold unit_step. simpl. lia.
Qed.

Definition good_entry (visited : gset (Z * Z)) (e : entry) : Prop :=
  inb e.1 /\ e.1 ∈ visited /\ shortest_walk start e.1 e.2.

(** The loop invariant.  The queue is [A ++ B]: the entries of [A]
    are at distance [d] from the start, those of [B] at distance
    [d + 1].  [cur] is the cell whose neighbours are being scanned. *)
Record Inv (d : Z) (cur : option (Z * Z)) (visited : gset (Z * Z))
    (A B : list entry) : Prop := {
  inv_d : 0 <= d;
  inv_A : Forall (fun e => good_entry visited e /\ dist e.1 = d) A;
  inv_B : Forall (fun e => good_entry visited e /\ dist e.1 = d + 1) B;
  inv_near : forall v, inb v -> dist v <= d -> v ∈ visited;
  inv_closed : forall v w,
    v ∈ visited -> Some v <> cur -> v ∉ (fst <$> A ++ B) ->
    inb w -> unit_step v w -> w ∈ visited;
  inv_target : target ∉ visited
}.

Lemma good_entry_mono visited p e :
  good_entry visited e -> good_entry ({[ p ]} ∪ visited) e.
Proof. unfold good_entry. set_solver. Qed.

Lemma Inv_initial :
  start <> target -> Inv 0 None {[ start ]} [(start, [start])] [].
Proof.
  intros Hne. split.
  - lia.
  - constructor; [|done]. split; [|unfold manhattan; simpl; lia].
    split; [done|]. split; [set_solver|].
    split; simpl; try done. unfold manhattan. lia.
  - done.
  - intros [vx vy] _ Hd. destruct start as [sx sy].
    unfold manhattan in Hd. simpl in Hd.
    assert (vx = sx /\ vy = sy) as [-> ->] by lia. set_solver.
  - intros v w Hv _ Hq. set_solver.
  - set_solver.
Qed.

(** When the entries at distance [d] are used up, those at distance
    [d + 1] take their place. *)
Lemma Inv_shift d visited B :
  Inv d None visited [] B -> Inv (d + 1) None visited B [].
Proof.
  intros [Hd _ HB Hnear Hclosed Htarget]. split; try done.
  - lia.
  - intros v Hv Hdist.
    destruct (decide (dist v <= d)) as [|Hfar]; [by apply Hnear|].
    destruct (step_back v) as (u & Hu & Hstep & Hdu); [done|lia|].
    apply (Hclosed u v); try done.
    + apply Hnear; [done|lia].
    + simpl. intros Hin. apply list_elem_of_fmap in Hin as (e & -> & He).
      rewrite Forall_forall in HB. destruct (HB e He) as [_ HdB]. lia.
  - intros v w Hv Hcur Hq. apply Hclosed; try done.
    by rewrite app_nil_r in Hq.
Qed.

(** With an empty queue every cell has been visited, the target too. *)
Lemma Inv_empty_queue d visited :
  inb target -> Inv d None visited [] [] -> False.
Proof.
  intros Htarget HInv.
  assert (forall n : nat, Inv (d + Z.of_nat n) None visited [] []) as Hall.
  { induction n as [|n IH].
    - by replace (d + Z.of_nat 0) with d by lia.
    - replace (d + Z.of_nat (S n)) with (d + Z.of_nat n + 1) by lia.
      by apply Inv_shift. }
  destruct (Hall (Z.to_nat (dist target))) as [Hd _ _ Hnear _ Hno].
  apply Hno, Hnear; [done|]. destruct HInv. lia.
Qed.
(** A neighbour of the scanned cell that was not seen before is one
    step further from the start. *)
Lemma new_cell_dist d cur visited A B n :
Inv d (Some cur) visited A B ->
dist cur = d -> unit_step cur n -> inb n -> n ∉ visited ->
dist n = d + 1.
Proof.
intros [Hd HA HB Hnear Hclosed Htarget] Hcur Hstep Hn Hnew.
destruct (unit_step_dist start cur n Hstep) as [Hup|Hdown]; [lia|].
exfalso. apply Hnew, Hnear; [done|lia].
Qed.

Lemma walk_extend cur n path :
shortest_walk start cur path -> unit_step cur n -> dist n = dist cur + 1 ->
shortest_walk start n (path ++ [n]).
Proof.
intros [Hh Hl Hs Hlen] Hstep Hdn. split.
- by apply head_snoc.
- by rewrite last_snoc.
- by apply stepwise_snoc with cur.
- rewrite length_app. simpl. lia.
Qed.

(** Entering [n], a neighbour of the scanned cell not seen before. *)
Lemma Inv_visit d cur visited A B n path :
Inv d (Some cur) visited A B ->
dist cur = d -> shortest_walk start cur path ->
unit_step cur n -> inb n -> n ∉ visited -> n <> target ->
Inv d (Some cur) ({[ n ]} ∪ visited) A (B ++ [(n, path ++ [n])]).
Proof.
intros HInv Hcur Hwalk Hstep Hn Hnew Hne.
pose proof (new_cell_dist _ _ _ _ _ _ HInv Hcur Hstep Hn Hnew) as Hdn.
assert (shortest_walk start n (path ++ [n])) as Hwalk'
  by (apply walk_extend with cur; [done|done|lia]).
destruct HInv as [Hd HA HB Hnear Hclosed Htarget].
split; try done.
- eapply Forall_impl; [exact HA|]. intros e [He Hde].
  split; [by apply good_entry_mono|done].
- apply Forall_app. split.
  + eapply Forall_impl; [exact HB|]. intros e [He Hde].
    split; [by apply good_entry_mono|done].
  + constructor; [|done]. split; [|done].
    split; [done|]. split; [set_solver|done].
- intros v Hv Hdv. set_solver.
- intros v w Hv Hvc Hq Hw Hvw.
  rewrite app_assoc, fmap_app, elem_of_app in Hq. simpl in Hq.
  apply elem_of_union in Hv as [Hv|Hv].
  + apply elem_of_singleton in Hv as ->. exfalso. apply Hq. right. set_solver.
  + apply elem_of_union_r. apply (Hclosed v w); try done.
    intros Hin. apply Hq. by left.
- set_solver.
Qed.

(** The loop over the directions keeps the invariant; [seen] lists the
    directions already handled. *)
Lemma scan_inv d x y path dirs :
dist (x, y) = d -> shortest_walk start (x, y) path ->
forall seen visited A B,
  Forall (fun dir => dir ∈ directions) dirs ->
  Inv d (Some (x, y)) visited A B ->
  (forall dir, dir ∈ seen -> inb (move (x, y) dir) -> move (x, y) dir ∈ visited) ->
  match scan dirs x y path target rows cols visited (A ++ B) with
  | Reached p => shortest_walk start target p
  | Scanned visited' queue' =>
      exists B', queue' = A ++ B'
        /\ Inv d (Some (x, y)) visited' A B'
        /\ forall dir, dir ∈ seen ++ dirs ->
             inb (move (x, y) dir) -> move (x, y) dir ∈ visited'
  end.
Proof.
intros Hcur Hwalk.
induction dirs as [|[dx dy] dirs IH]; intros seen visited A B Hdirs HInv Hseen.
- simpl. exists B. by rewrite app_nil_r.
- apply Forall_cons in Hdirs as [Hdir Hdirs].
  cbn [scan].
  change (x + dx, y + dy) with (move (x, y) (dx, dy)).
  set (n := move (x, y) (dx, dy)).
  assert (forall visited' A' B',
    Inv d (Some (x, y)) visited' A' B' ->
    (forall dir, dir ∈ seen ++ [(dx, dy)] ->
       inb (move (x, y) dir) -> move (x, y) dir ∈ visited') ->
    match scan dirs x y path target rows cols visited' (A' ++ B') with
    | Reached p => shortest_walk start target p
    | Scanned visited'' queue' =>
        exists B'', queue' = A' ++ B''
          /\ Inv d (Some (x, y)) visited'' A' B''
          /\ forall dir, dir ∈ seen ++ (dx, dy) :: dirs ->
               inb (move (x, y) dir) -> move (x, y) dir ∈ visited''
    end) as Hnext.
  { intros visited' A' B' HInv' Hseen'.
    specialize (IH (seen ++ [(dx, dy)]) visited' A' B' Hdirs HInv' Hseen').
    by rewrite <- app_assoc in IH. }
  destruct (in_grid rows cols n) eqn:Hin; simpl.
  + case_bool_decide as Hvis; simpl.
    * apply Hnext; [done|]. intros dir Hd Hdin.
      apply elem_of_app in Hd as [Hd|Hd]; [by apply Hseen|].
      by apply list_elem_of_singleton in Hd as ->.
    * pose proof (move_unit_step (x, y) (dx, dy) Hdir) as Hstep. fold n in Hstep.
      case_bool_decide as Htgt.
      -- rewrite <- Htgt. apply walk_extend with (x, y); [done|done|].
         rewrite Hcur. by eapply new_cell_dist.
      -- rewrite <- app_assoc. apply Hnext.
         ++ by apply Inv_visit.
         ++ intros dir Hd Hdin.
            apply elem_of_app in Hd as [Hd|Hd]; [apply elem_of_union_r; by apply Hseen|].
            apply list_elem_of_singleton in Hd as ->. set_solver.
  + apply Hnext; [done|]. intros dir Hd Hdin.
    apply elem_of_app in Hd as [Hd|Hd]; [by apply Hseen|].
    apply list_elem_of_singleton in Hd as ->. fold n in Hdin. congruence.
Qed.

(** Every cell next to [p] is reached by one of the four directions. *)
Lemma Inv_scanned d p visited A B :
Inv d (Some p) visited A B ->
(forall dir, dir ∈ directions -> inb (move p dir) -> move p dir ∈ visited) ->
Inv d None visited A B.
Proof.
intros [Hd HA HB Hnear Hclosed Htarget] Hall. split; try done.
intros v w Hv _ Hq Hw Hvw.
destruct (decide (v = p)) as [->|Hvp].
- destruct (unit_step_move p w Hvw) as (dir & Hdir & ->). by apply Hall.
- apply (Hclosed v w); try done. congruence.
Qed.

(** Taking the head of the queue to scan its neighbours. *)
Lemma Inv_pop d e visited A B :
Inv d None visited (e :: A) B -> Inv d (Some e.1) visited A B.
Proof.
intros [Hd HA HB Hnear Hclosed Htarget]. split; try done.
- by apply Forall_cons in HA as [_ HA].
- intros v w Hv Hcur Hq. apply Hclosed; try done.
  simpl. rewrite elem_of_cons. intros [->|Hin]; [congruence|done].
Qed.

(** While the target is not reached the queue has a head, and the
    entries at the smallest distance come first. *)
Lemma Inv_front d visited A B :
inb target -> Inv d None visited A B ->
exists d' e A' B',
  A ++ B = e :: A' ++ B' /\ Inv d' None visited (e :: A') B'.
Proof.
intros Htarget HInv. destruct A as [|e A].
- destruct B as [|e B].
  + by destruct (Inv_empty_queue d visited Htarget).
  + exists (d + 1), e, B, []. split; [by rewrite app_nil_r | by apply Inv_shift].
- by exists d, e, A, B.
Qed.

(** The [while] loop returns a shortest walk to the target. *)
Lemma bfs_loop_inv fuel :
inb target ->
forall d visited A B,
  Inv d None visited A B ->
  (measure rows cols visited (A ++ B) <= fuel)%nat ->
  exists p, bfs_loop fuel target rows cols visited (A ++ B) = Path p
            /\ shortest_walk start target p.
Proof.
intros Htarget.
induction fuel as [|fuel IH]; intros d visited A B HInv Hfuel.
all: destruct (Inv_front d visited A B Htarget HInv)
       as (d' & [[x y] path] & A' & B' & Hq & HInv').
all: rewrite Hq in *; clear Hq HInv.
- unfold measure in Hfuel. simpl in Hfuel. lia.
- cbn [bfs_loop].
  assert (dist (x, y) = d' /\ shortest_walk start (x, y) path) as [Hcur Hwalk].
  { destruct HInv' as [_ HA _ _ _ _]. apply Forall_cons in HA as [[He Hde] _].
    split; [done|]. apply He. }
  pose proof (scan_inv d' x y path directions Hcur Hwalk [] visited A' B') as Hscan.
  pose proof (scan_measure rows cols target directions x y path visited (A' ++ B'))
    as Hm.
  destruct (scan directions x y path target rows cols visited (A' ++ B'))
    as [p|visited' queue'].
  + exists p. split; [done|]. apply Hscan.
    * by apply Forall_forall.
    * by apply (Inv_pop d' ((x, y), path)).
    * set_solver.
  + destruct Hscan as (B'' & -> & HInv'' & Hall).
    * by apply Forall_forall.
    * by apply (Inv_pop d' ((x, y), path)).
    * set_solver.
    * apply (IH d').
      -- by apply Inv_scanned with (x, y).
      -- rewrite (Hm _ _ eq_refl). unfold measure in *. simpl in Hfuel. lia.
Qed.

End Invariant.


(** C1.  On a grid with at least one row and one column (which the
    in-bounds start already forces), for in-bounds [start] and [target],
    [bfs_path] returns a path: it begins at [start], ends at [target],
    every two consecutive cells differ by one unit in exactly one
    coordinate, and its length is the Manhattan distance between
    [start] and [target] plus one. *)
Theorem bfs_path_shortest grid rows cols start target :
  in_grid rows cols start = true ->
  in_grid rows cols target = true ->
  exists path,
    bfs_path grid start target rows cols = Path path
    /\ head path = Some start
    /\ last path = Some target
    /\ stepwise path
    /\ Z.of_nat (length path) = manhattan start target + 1.
Proof.
  intros Hstart Htarget.
  assert (exists path, bfs_path grid start target rows cols = Path path
                       /\ shortest_walk start target path)
    as (path & Hpath & [Hh Hl Hs Hlen]); [|by exists path].
  unfold bfs_path. case_bool_decide as Heq.
  - subst target. exists [start]. split; [done|].
    split; simpl; try done. unfold manhattan. lia.
  - change [(start, [start])] with ([(start, [start])] ++ ([] : list ((Z * Z) * list (Z * Z)))).
    apply (bfs_loop_inv rows cols start target Hstart _ Htarget 0).
    + by apply Inv_initial.
    + apply initial_measure.
Qed.

Lemma bfs_path_shortest_witness :
  in_grid 6 5 (0, 0) = true /\ in_grid 6 5 (3, 2) = true
  /\ exists path,
       bfs_path (empty_grid 6 5) (0, 0) (3, 2) 6 5 = Path path
       /\ head path = Some (0, 0)
       /\ last path = Some (3, 2)
       /\ stepwise path
       /\ Z.of_nat (length path) = manhattan (0, 0) (3, 2) + 1.
Proof.
  split; [reflexivity|]. split; [reflexivity|].
  apply bfs_path_shortest; reflexivity.
Defined.

(** The path the search finds keeps to the first direction that makes
    progress: along the row, then down the column. *)
Example bfs_path_sample :
  bfs_path (empty_grid 6 5) (0, 0) (3, 2) 6 5
  = Path [(0, 0); (0, 1); (0, 2); (1, 2); (2, 2); (3, 2)].
Proof. vm_compute. reflexivity. Qed.

Example bfs_path_backwards :
  bfs_path (empty_grid 6 5) (2, 3) (0, 1) 6 5
  = Path [(2, 3); (2, 2); (2, 1); (1, 1); (0, 1)].
Proof. vm_compute. reflexivity. Qed.

End BfsCorrectness.

(* ===================================================================== *)
(** ** Directions to a product *)
(* ===================================================================== *)

Module DirectionsFacts.
Import Database Pathfinding.

(** A store with the default 6 x 5 grid, the entrance at the origin and
    one aisle, and two products: one on that aisle, one whose aisle is
    not on the map. *)
Definition demo_store : Store :=
  {| store_config :=
       {[ "grid_rows" := "6"; "grid_cols" := "5";
          "entrance_x" := "0"; "entrance_y" := "0" ]};
     all_aisles :=
       [ {| a_name := "A1"; a_section := "Grocery"; grid_x := 0; grid_y := 2 |};
         {| a_name := "Z9"; a_section := "Annex"; grid_x := 7; grid_y := 1 |} ];
     all_products := [] |}.

Definition sugar : Product :=
  {| name := "Sugar"; brand := "Local"; category := "Grocery";
     keywords := "cheeni,sweet"; variants := []; price := 45; quantity := "1 kg";
     shelf := 2; aisle_name := Some "A1"; section := Some "Grocery" |}.

Definition lamp : Product :=
  {| name := "Lamp"; brand := ""; category := "Home";
     keywords := ""; variants := []; price := 0; quantity := "";
     shelf := 1; aisle_name := Some "Q7"; section := None |}.

Definition annex_item : Product :=
  {| name := "Crate"; brand := ""; category := "Storage";
     keywords := ""; variants := []; price := 0; quantity := "";
     shelf := 1; aisle_name := Some "Z9"; section := Some "Annex" |}.

Example directions_to_sugar :
  get_directions_to_product demo_store sugar
  = Some {| found := true;
            directions_text := "Head to **Aisle A1** (Grocery): Go right for 2 sections";
            path := [(0, 0); (0, 1); (0, 2)];
            target := Some (0, 2);
            entrance := (0, 0);
            steps := Some 2 |}.
Proof. vm_compute. reflexivity. Qed.

(** A setting that is not a numeral makes [int] raise. *)
Example directions_bad_config :
  get_directions_to_product
    {| store_config := {[ "grid_rows" := "six" ]};
       all_aisles := []; all_products := [] |} lamp = None.
Proof. vm_compute. reflexivity. Qed.

(** What the lookup holds comes from an aisle inside the grid. *)
Lemma fill_lookup rows cols aisles acc n p :
  (fold_left (place_aisle rows cols) aisles acc).2 !! n = Some p ->
  acc.2 !! n = Some p
  \/ exists a, a ∈ aisles /\ a_name a = n
               /\ in_grid rows cols (grid_x a, grid_y a) = true.
Proof.
  revert acc. induction aisles as [|a aisles IH]; intros acc; simpl.
  - by left.
  - intros Hlook. apply IH in Hlook as [Hacc|(a' & Hin & Hname & Hgrid)].
    + unfold place_aisle in Hacc.
      destruct (in_grid rows cols (grid_x a, grid_y a)) eqn:Hgrid; [|by left].
      simpl in Hacc. destruct (decide (a_name a = n)) as [Hn|Hn].
      * right. exists a. split; [set_solver|done].
      * left. by rewrite lookup_insert_ne in Hacc.
    + right. exists a'. split; [set_solver|done].
Qed.

(** An aisle outside the grid leaves the loop's state as it was. *)
Lemma fill_skip rows cols aisles acc :
  fold_left (place_aisle rows cols) aisles acc
  = fold_left (place_aisle rows cols)
      (filter (fun a => in_grid rows cols (grid_x a, grid_y a) = true) aisles) acc.
Proof.
  revert acc. induction aisles as [|a aisles IH]; intros acc; [done|].
  simpl. rewrite filter_cons. case_decide as Hgrid; simpl.
  - apply IH.
  - rewrite IH. f_equal. unfold place_aisle.
    by destruct (in_grid rows cols (grid_x a, grid_y a)).
Qed.

Lemma build_store_grid_fill db grid rows cols positions :
  build_store_grid db = Some (grid, rows, cols, positions) ->
  fill_grid rows cols (get_all_aisles db) = (grid, positions).
Proof.
  unfold build_store_grid. intros Hb.
  destruct (config_int db "grid_rows" 6) as [r|]; [|done].
  destruct (config_int db "grid_cols" 5) as [c|]; [|done].
  simpl in Hb. destruct (fill_grid r c (get_all_aisles db)) as [g ps] eqn:Hfill.
  by simplify_eq.
Qed.

(** The reply for an aisle that the lookup does not hold. *)
Lemma directions_missing db product grid rows cols positions ex ey :
  build_store_grid db = Some (grid, rows, cols, positions) ->
  config_int db "entrance_x" 0 = Some ex ->
  config_int db "entrance_y" 0 = Some ey ->
  (forall n, aisle_name product = Some n -> positions !! n = None) ->
  get_directions_to_product db product
  = Some (not_found (aisle_name product) (ex, ey)).
Proof.
  intros Hb Hx Hy Hmiss. unfold get_directions_to_product.
  rewrite Hb. simpl. rewrite Hx. simpl. rewrite Hy. simpl.
  destruct (aisle_name product) as [n|]; simpl; [|done].
  by rewrite (Hmiss n eq_refl).
Qed.

(** C4 (as the code has it).  When the stored grid and entrance settings
    are numerals (or absent, or empty), a product whose aisle name is
    not in the lookup gets a result, not an exception: [found] is
    false, the text is the apology naming the aisle, the path is empty,
    [entrance] is the entrance, and [target] is [None]. *)
Theorem missing_aisle_result db product grid rows cols positions ex ey :
  build_store_grid db = Some (grid, rows, cols, positions) ->
  config_int db "entrance_x" 0 = Some ex ->
  config_int db "entrance_y" 0 = Some ey ->
  (forall n, aisle_name product = Some n -> positions !! n = None) ->
  get_directions_to_product db product
  = Some {| found := false;
            directions_text :=
              "Sorry, I couldn't find the location for aisle "
                +:+ fmt (aisle_name product) +:+ ".";
            path := [];
            target := None;
            entrance := (ex, ey);
            steps := None |}.
Proof.
  intros Hb Hx Hy Hmiss. unfold get_directions_to_product.
  rewrite Hb. simpl. rewrite Hx. simpl. rewrite Hy. simpl.
  destruct (aisle_name product) as [n|] eqn:Hname; simpl.
  - rewrite (Hmiss n eq_refl). reflexivity.
  - reflexivity.
Qed.

Lemma missing_aisle_result_witness :
  build_store_grid demo_store
  = Some ((fill_grid 6 5 (all_aisles demo_store)).1, 6, 5,
          (fill_grid 6 5 (all_aisles demo_store)).2)
  /\ config_int demo_store "entrance_x" 0 = Some 0
  /\ config_int demo_store "entrance_y" 0 = Some 0
  /\ (forall n, aisle_name lamp = Some n ->
        (fill_grid 6 5 (all_aisles demo_store)).2 !! n = None)
  /\ get_directions_to_product demo_store lamp
     = Some {| found := false;
               directions_text := "Sorry, I couldn't find the location for aisle Q7.";
               path := [];
               target := None;
               entrance := (0, 0);
               steps := None |}.
Proof.
  assert (forall n, aisle_name lamp = Some n ->
            (fill_grid 6 5 (all_aisles demo_store)).2 !! n = None) as Hmiss
    by (intros n [= <-]; vm_compute; reflexivity).
  split; [reflexivity|]. split; [reflexivity|]. split; [reflexivity|].
  split; [exact Hmiss|].
  apply (missing_aisle_result demo_store lamp
           (fill_grid 6 5 (all_aisles demo_store)).1 6 5
           (fill_grid 6 5 (all_aisles demo_store)).2 0 0);
    [reflexivity | reflexivity | reflexivity | exact Hmiss].
Defined.

(** C4, as stated, fails: the failure result does not carry the entrance
    as its target; the target is [None]. *)
Lemma missing_aisle_target_is_none :
  exists r, get_directions_to_product demo_store lamp = Some r
            /\ found r = false
            /\ entrance r = (0, 0)
            /\ target r = None
            /\ target r <> Some (entrance r).
Proof.
  eexists. split; [vm_compute; reflexivity|]. simpl. repeat split; done.
Qed.


(** *** Already at the target *)

Lemma bfs_path_same grid p rows cols : bfs_path grid p p rows cols = Path [p].
Proof. unfold bfs_path. by rewrite bool_decide_eq_true_2. Qed.

Lemma path_to_directions_single p : path_to_directions [p] = "You're already there!".
Proof. reflexivity. Qed.

(** C7.  When the entrance is the cell of the target aisle, the result
    carries the one-cell path [[p]] and, after the heading that names
    the aisle and section, the phrase "You're already there!". *)
Theorem directions_already_there db product grid rows cols positions n p :
  build_store_grid db = Some (grid, rows, cols, positions) ->
  config_int db "entrance_x" 0 = Some p.1 ->
  config_int db "entrance_y" 0 = Some p.2 ->
  aisle_name product = Some n ->
  positions !! n = Some p ->
  bfs_path grid p p rows cols = Path [p]
  /\ path_to_directions [p] = "You're already there!"
  /\ get_directions_to_product db product
     = Some {| found := true;
               directions_text :=
                 "Head to **Aisle " +:+ n +:+ "** (" +:+ fmt (section product)
                   +:+ "): " +:+ "You're already there!";
               path := [p];
               target := Some p;
               entrance := p;
               steps := Some 0 |}.
Proof.
  intros Hb Hx Hy Hname Hpos.
  split; [apply bfs_path_same|]. split; [reflexivity|].
  unfold get_directions_to_product.
  rewrite Hb. simpl. rewrite Hx. simpl. rewrite Hy. simpl.
  rewrite Hname. simpl. rewrite Hpos. simpl.
  destruct p as [px py]. simpl. by rewrite bfs_path_same.
Qed.

(** The same store with the entrance moved onto aisle A1. *)
Definition demo_store_at_A1 : Store :=
  {| store_config :=
       {[ "grid_rows" := "6"; "grid_cols" := "5";
          "entrance_x" := "0"; "entrance_y" := "2" ]};
     all_aisles := all_aisles demo_store;
     all_products := [] |}.

Lemma directions_already_there_witness :
  get_directions_to_product demo_store_at_A1 sugar
  = Some {| found := true;
            directions_text := "Head to **Aisle A1** (Grocery): You're already there!";
            path := [(0, 2)];
            target := Some (0, 2);
            entrance := (0, 2);
            steps := Some 0 |}.
Proof.
  apply (directions_already_there demo_store_at_A1 sugar
           (fill_grid 6 5 (all_aisles demo_store)).1 6 5
           (fill_grid 6 5 (all_aisles demo_store)).2 "A1" (0, 2));
    vm_compute; reflexivity.
Defined.

(** *** Aisles outside the grid *)

(** C9.  An aisle whose stored coordinates lie outside the grid is left
    out by the grid builder: grid and lookup are what they would be
    without that aisle, the lookup has no entry under its name (aisle
    names are unique in the store), and directions to a product on that
    aisle are the not-found result. *)
Theorem out_of_grid_aisle_not_found db a product grid rows cols positions ex ey :
  build_store_grid db = Some (grid, rows, cols, positions) ->
  config_int db "entrance_x" 0 = Some ex ->
  config_int db "entrance_y" 0 = Some ey ->
  NoDup (a_name <$> get_all_aisles db) ->
  a ∈ get_all_aisles db ->
  in_grid rows cols (grid_x a, grid_y a) = false ->
  aisle_name product = Some (a_name a) ->
  (grid, positions)
    = fill_grid rows cols (filter (fun a' => a' <> a) (get_all_aisles db))
  /\ positions !! a_name a = None
  /\ exists r, get_directions_to_product db product = Some r
               /\ found r = false /\ path r = [] /\ target r = None.
Proof.
  intros Hb Hx Hy Hnames Ha Hout Hprod.
  pose proof (build_store_grid_fill _ _ _ _ _ Hb) as Hfill.
  assert (positions !! a_name a = None) as Hnone.
  { destruct (positions !! a_name a) as [p|] eqn:Hlook; [exfalso|done].
    assert ((fill_grid rows cols (get_all_aisles db)).2 !! a_name a = Some p)
      as Hlook' by (by rewrite Hfill).
    apply fill_lookup in Hlook' as [Hemp|(a' & Hin & Hname & Hgrid)].
    - simpl in Hemp. by rewrite lookup_empty in Hemp.
    - assert (a' = a) as ->; [|congruence].
      apply list_elem_of_lookup in Hin as [i Hi].
      apply list_elem_of_lookup in Ha as [j Hj].
      assert (i = j) as ->; [|congruence].
      eapply NoDup_lookup; [exact Hnames| |].
      + rewrite list_lookup_fmap, Hi. simpl. by rewrite Hname.
      + by rewrite list_lookup_fmap, Hj. }
  split; [|split; [done|]].
  - rewrite <- Hfill. unfold fill_grid.
    rewrite (fill_skip rows cols (get_all_aisles db)).
    rewrite (fill_skip rows cols (filter (fun a' => a' <> a) (get_all_aisles db))).
    f_equal. rewrite list_filter_filter. apply list_filter_iff.
    intros a'. split; [|tauto]. intros Hin. split; [done|]. congruence.
  - eexists. split.
    + apply (directions_missing db product grid rows cols positions ex ey);
        try done.
      intros n Hn. rewrite Hprod in Hn. by injection Hn as <-.
    + done.
Qed.

Lemma out_of_grid_aisle_not_found_witness :
  let z9 := {| a_name := "Z9"; a_section := "Annex"; grid_x := 7; grid_y := 1 |} in
  in_grid 6 5 (grid_x z9, grid_y z9) = false
  /\ (fill_grid 6 5 (all_aisles demo_store)).2 !! "Z9" = None
  /\ exists r, get_directions_to_product demo_store annex_item = Some r
               /\ found r = false /\ path r = [] /\ target r = None.
Proof.
  intros z9. split; [reflexivity|].
  apply (out_of_grid_aisle_not_found demo_store z9 annex_item
           (fill_grid 6 5 (all_aisles demo_store)).1 6 5
           (fill_grid 6 5 (all_aisles demo_store)).2 0 0).
  - reflexivity.
  - reflexivity.
  - reflexivity.
  - vm_compute. repeat constructor; set_solver.
  - vm_compute. set_solver.
  - reflexivity.
  - reflexivity.
Defined.

End DirectionsFacts.

(* ===================================================================== *)
(** ** Scores: maximum and rounding *)
(* ===================================================================== *)

Module ScoreFacts.
Import Search.

Lemma pymax_ge_l a b : (a <= pymax a b)%Q.
Proof. unfold pymax. destruct (Qcompare_spec a b); lra. Qed.

Lemma pymax_ge_r a b : (b <= pymax a b)%Q.
Proof. unfold pymax. destruct (Qcompare_spec a b); lra. Qed.

Lemma pymax_le a b c : (a <= c)%Q -> (b <= c)%Q -> (pymax a b <= c)%Q.
Proof. unfold pymax. destruct (Qcompare_spec a b); lra. Qed.

Lemma floor_bounds q : (inject_Z (Qfloor q) <= q < inject_Z (Qfloor q) + 1)%Q.
Proof.
  split; [apply Qfloor_le|].
  pose proof (Qlt_floor q) as Hlt. rewrite inject_Z_plus in Hlt. exact Hlt.
Qed.

Lemma round_half_even_floor q :
  (Qfloor q <= round_half_even q <= Qfloor q + 1)%Z.
Proof.
  unfold round_half_even.
  destruct (q - inject_Z (Qfloor q) ?= 1 # 2)%Q; [destruct (Z.even _)|..]; lia.
Qed.

(** An integer below [q] stays below the rounded value. *)
Lemma round_half_even_ge (k : Z) q :
  (inject_Z k <= q)%Q -> (k <= round_half_even q)%Z.
Proof.
  intros Hk. pose proof (round_half_even_floor q) as [Hlo _].
  pose proof (Qfloor_resp_le _ _ Hk) as Hfl. rewrite Qfloor_Z in Hfl. lia.
Qed.

(** An integer above [q] stays above the rounded value. *)
Lemma round_half_even_le (k : Z) q :
  (q <= inject_Z k)%Q -> (round_half_even q <= k)%Z.
Proof.
  intros Hk. pose proof (floor_bounds q) as [Hlo Hhi].
  assert (Qfloor q <= k)%Z as Hfk by (rewrite Zle_Qle; lra).
  unfold round_half_even.
  destruct (Qcompare_spec (q - inject_Z (Qfloor q)) (1 # 2)) as [Heq|Hlt|Hgt].
  - assert (Qfloor q < k)%Z; [|destruct (Z.even _); lia].
    rewrite Zlt_Qlt. lra.
  - done.
  - assert (Qfloor q < k)%Z; [|lia]. rewrite Zlt_Qlt. lra.
Qed.

Lemma round_half_even_mono p q :
  (p <= q)%Q -> (round_half_even p <= round_half_even q)%Z.
Proof.
  intros Hpq.
  pose proof (Qfloor_resp_le _ _ Hpq) as Hfl.
  pose proof (round_half_even_floor p) as [_ Hp].
  pose proof (round_half_even_floor q) as [Hq _].
  destruct (decide (Qfloor p = Qfloor q)) as [Heq|Hne]; [|lia].
  unfold round_half_even. rewrite Heq.
  destruct (Qcompare_spec (p - inject_Z (Qfloor q)) (1 # 2)) as [Hp1|Hp1|Hp1];
    destruct (Qcompare_spec (q - inject_Z (Qfloor q)) (1 # 2)) as [Hq1|Hq1|Hq1];
    try lia; try lra; destruct (Z.even (Qfloor q)); lia.
Qed.

Lemma tenths_le (a b : Z) : (a <= b)%Z -> (a # 10 <= b # 10)%Q.
Proof. unfold Qle. simpl. lia. Qed.

Lemma round1_mono p q : (p <= q)%Q -> (round1 p <= round1 q)%Q.
Proof.
  intros Hpq. unfold round1. apply tenths_le, round_half_even_mono. lra.
Qed.

(** A bound with at most one decimal is kept by [round1]. *)
Lemma round1_ge (k : Z) q : (k # 10 <= q)%Q -> (k # 10 <= round1 q)%Q.
Proof.
  intros Hk. unfold round1. apply tenths_le, round_half_even_ge.
  unfold Qle in *. simpl in *. lia.
Qed.

Lemma round1_le (k : Z) q : (q <= k # 10)%Q -> (round1 q <= k # 10)%Q.
Proof.
  intros Hk. unfold round1. apply tenths_le, round_half_even_le.
  unfold Qle in *. simpl in *. lia.
Qed.

Lemma round1_range q : (0 <= q <= 100)%Q -> (0 <= round1 q <= 100)%Q.
Proof.
  intros [Hlo Hhi]. split.
  - assert (0 # 10 <= round1 q)%Q by (apply round1_ge; lra). lra.
  - assert (round1 q <= 1000 # 10)%Q by (apply round1_le; lra). lra.
Qed.

Lemma round1_ge_95 q : (95 <= q)%Q -> (95 <= round1 q)%Q.
Proof.
  intros Hq. assert (950 # 10 <= round1 q)%Q by (apply round1_ge; lra). lra.
Qed.

End ScoreFacts.

(* ===================================================================== *)
(** ** Query expansion *)
(* ===================================================================== *)

Module ExpandFacts.
Import PyStr PyStrFacts Database Search.

Lemma lower_app a b : lower (a +:+ b) = lower a +:+ lower b.
Proof.
  induction a as [|c a IH]; [done|].
  change (String (lower_char c) (lower (a +:+ b))
          = String (lower_char c) (lower a +:+ lower b)).
  by rewrite IH.
Qed.

(** A lower-case term found in a text is found in the lowered text. *)
Lemma contains_lower t s :
  lower t = t -> contains t s = true -> contains t (lower s) = true.
Proof.
  intros Ht. rewrite !contains_spec. intros (u & v & ->).
  exists (lower u), (lower v). by rewrite !lower_app, Ht.
Qed.

Lemma intent_keys_lower :
  Forall (fun entry => lower entry.1 = entry.1) INTENT_MAP.
Proof. repeat constructor. Qed.

Lemma gather_keeps q imap acc x :
  x ∈ acc -> x ∈ fold_left (add_intent q) imap acc.
Proof.
  revert acc. induction imap as [|entry imap IH]; intros acc Hx; [done|].
  simpl. apply IH. unfold add_intent.
  destruct (contains entry.1 q); [set_solver|done].
Qed.

Lemma gather_synonyms q imap acc intent synonyms s :
  (intent, synonyms) ∈ imap -> contains intent q = true -> s ∈ synonyms ->
  s ∈ fold_left (add_intent q) imap acc.
Proof.
  revert acc. induction imap as [|entry imap IH]; intros acc Hin Hq Hs.
  - by apply elem_of_nil in Hin.
  - simpl. apply elem_of_cons in Hin as [<-|Hin].
    + apply gather_keeps. unfold add_intent. simpl. rewrite Hq. set_solver.
    + by apply IH.
Qed.

Lemma expand_query_lower query : lower query ∈ expand_query query.
Proof. unfold expand_query. apply elem_of_remove_dups, gather_keeps. set_solver. Qed.

(** C8.  The expansion has no duplicates and is never empty: it holds
    the lowered query, and for every intent key of [INTENT_MAP] found in
    the query (as given, or lowered) all the synonyms of that key. *)
Theorem expand_query_terms query :
  NoDup (expand_query query)
  /\ expand_query query <> []
  /\ lower query ∈ expand_query query
  /\ forall intent synonyms s,
       (intent, synonyms) ∈ INTENT_MAP ->
       contains intent (lower query) = true \/ contains intent query = true ->
       s ∈ synonyms ->
       s ∈ expand_query query.
Proof.
  pose proof (expand_query_lower query) as Hq.
  split; [apply NoDup_remove_dups|]. split; [|split; [done|]].
  - intros Hnil. rewrite Hnil in Hq. by apply elem_of_nil in Hq.
  - intros intent synonyms s Hin Hfound Hs.
    unfold expand_query. apply elem_of_remove_dups.
    apply gather_synonyms with intent synonyms; [done| |done].
    destruct Hfound as [Hl|Hr]; [done|].
    apply contains_lower; [|done].
    pose proof intent_keys_lower as Hkeys. rewrite Forall_forall in Hkeys.
    apply (Hkeys _ Hin).
Qed.

Lemma expand_query_terms_witness :
  (("cold", ["cold"; "flu"; "fever"; "cough"; "sardi"; "khansi"; "bukhar"; "paracetamol"])
     ∈ INTENT_MAP)
  /\ contains "cold" (lower "Something for COLD") = true
  /\ "paracetamol" ∈ expand_query "Something for COLD".
Proof.
  assert (("cold", ["cold"; "flu"; "fever"; "cough"; "sardi"; "khansi"; "bukhar"; "paracetamol"])
            ∈ INTENT_MAP) as Hin by (unfold INTENT_MAP; set_solver).
  split; [exact Hin|]. split; [reflexivity|].
  destruct (expand_query_terms "Something for COLD") as (_ & _ & _ & Hsyn).
  apply (Hsyn "cold" _ "paracetamol" Hin); [left; reflexivity | set_solver].
Defined.

Example expand_plain : expand_query "Sugar" = ["sugar"].
Proof. vm_compute. reflexivity. Qed.

Example expand_empty : expand_query "" = [""].
Proof. vm_compute. reflexivity. Qed.

End ExpandFacts.

(* ===================================================================== *)
(** ** Fuzzy ranking *)
(* ===================================================================== *)

Module RankFacts.
Import PyStr PyStrFacts Database Search ScoreFacts ExpandFacts.

(** *** Sample collaborators *)

(** A scorer that only recognises equal texts; on equal non-empty texts
    (100) and against an empty text (0) it gives what rapidfuzz gives. *)
Definition exact_ratio (a b : string) : Q :=
  if bool_decide (a = "" \/ b = "") then 0
  else if bool_decide (a = b) then 100 else 0.

Lemma exact_ratio_range a b : (0 <= exact_ratio a b <= 100)%Q.
Proof. unfold exact_ratio. repeat case_bool_decide; lra. Qed.

Definition exact_rapidfuzz : Rapidfuzz :=
  {| WRatio := exact_ratio;
     partial_ratio := exact_ratio;
     token_set_ratio := exact_ratio;
     WRatio_range := exact_ratio_range;
     partial_ratio_range := exact_ratio_range;
     token_set_ratio_range := exact_ratio_range |}.

(** A spell checker that knows every word. *)
Definition knows_all : SpellChecker :=
  {| spell_unknown := fun _ => false;
     english_unknown := fun _ => false;
     spell_correction := fun _ => None |}.

(** No API key: the remote matcher is off. *)
Definition no_matcher : Matcher :=
  {| client_available := false;
     reply_indices := fun _ _ => None |}.

Definition plain_sugar : Product :=
  {| name := "Sugar"; brand := ""; category := ""; keywords := "";
     variants := []; price := 45; quantity := "1 kg"; shelf := 2;
     aisle_name := Some "A1"; section := Some "Grocery" |}.

(** *** Score ranges *)

Section Scores.
Context `{Rapidfuzz} `{SpellChecker}.

Lemma weighted_sum_range term name brand category keywords :
  (0 <= weighted_sum term name brand category keywords <= 100)%Q.
Proof.
  unfold weighted_sum.
  pose proof (WRatio_range term name). pose proof (partial_ratio_range term name).
  pose proof (WRatio_range term brand). pose proof (WRatio_range term category).
  pose proof (token_set_ratio_range term keywords).
  pose proof (pymax_ge_l (WRatio term name) (partial_ratio term name)).
  assert (pymax (WRatio term name) (partial_ratio term name) <= 100)%Q
    by (apply pymax_le; lra).
  lra.
Qed.

Lemma term_score_range term name brand category keywords :
  (0 <= term_score term name brand category keywords <= 100)%Q.
Proof.
  pose proof (weighted_sum_range term name brand category keywords) as [Hlo Hhi].
  assert (forall c, 0 <= c <= 100 ->
            0 <= pymax (weighted_sum term name brand category keywords) c <= 100)%Q
    as Hmax.
  { intros c Hc. split; [|apply pymax_le; lra].
    pose proof (pymax_ge_l (weighted_sum term name brand category keywords) c). lra. }
  unfold term_score.
  destruct (contains term name); [apply Hmax; lra|].
  destruct (startswith name term || endswith name term); [apply Hmax; lra|].
  destruct (contains term keywords); [apply Hmax; lra|done].
Qed.

Lemma fold_pymax_range (f : string -> Q) terms (init : Q) :
  (0 <= init <= 100)%Q -> (forall t, 0 <= f t <= 100)%Q ->
  (0 <= fold_left (fun best term => pymax best (f term)) terms init <= 100)%Q.
Proof.
  intros Hinit Hf. revert init Hinit.
  induction terms as [|t terms IH]; intros init Hinit; simpl; [done|].
  apply IH. pose proof (Hf t). pose proof (pymax_ge_l init (f t)).
  split; [lra|apply pymax_le; lra].
Qed.

Lemma fold_pymax_init (f : string -> Q) terms (init : Q) :
  (init <= fold_left (fun best term => pymax best (f term)) terms init)%Q.
Proof.
  revert init. induction terms as [|t terms IH]; intros init; simpl; [lra|].
  eapply Qle_trans; [apply (pymax_ge_l init (f t))|apply IH].
Qed.

Lemma fold_pymax_ge (f : string -> Q) terms (init : Q) t :
  t ∈ terms ->
  (f t <= fold_left (fun best term => pymax best (f term)) terms init)%Q.
Proof.
  revert init. induction terms as [|t' terms IH]; intros init Hin.
  - by apply elem_of_nil in Hin.
  - simpl. apply elem_of_cons in Hin as [->|Hin]; [|by apply IH].
    eapply Qle_trans; [apply (pymax_ge_r init (f t'))|apply fold_pymax_init].
Qed.

Lemma best_score_range terms product : (0 <= best_score terms product <= 100)%Q.
Proof.
  unfold best_score. apply fold_pymax_range; [lra|].
  intros t. apply term_score_range.
Qed.

Lemma best_score_ge terms product t :
  t ∈ terms ->
  (term_score t (lower (name product)) (lower (brand product))
     (lower (category product)) (lower (keywords product))
   <= best_score terms product)%Q.
Proof.
  intros Hin. unfold best_score.
  apply (fold_pymax_ge
           (fun term => term_score term (lower (name product)) (lower (brand product))
                          (lower (category product)) (lower (keywords product)))
           terms 0%Q t Hin).
Qed.

End Scores.


(** *** What the fuzzy search returns *)

(** [a] may stand before [b] in the ranking. *)
Definition desc (a b : Scored) : Prop := (match_score b <= match_score a)%Q.

(** The strict order the claim C2 asks for. *)
Definition strictly_desc (a b : Scored) : Prop := (match_score b < match_score a)%Q.

Lemma insert_desc_perm r l : insert_desc r l ≡ₚ r :: l.
Proof.
  induction l as [|r' l IH]; simpl; [done|].
  destruct (Qle_bool (match_score r') (match_score r)); [done|].
  rewrite IH. apply Permutation_swap.
Qed.

Lemma sort_desc_perm l : sort_desc l ≡ₚ l.
Proof.
  induction l as [|r l IH]; simpl; [done|].
  rewrite insert_desc_perm. by rewrite IH.
Qed.

Lemma insert_desc_sorted r l :
  StronglySorted desc l -> StronglySorted desc (insert_desc r l).
Proof.
  induction l as [|r' l IH]; intros Hl; simpl.
  - by repeat constructor.
  - apply StronglySorted_inv in Hl as [Hl Hall].
    destruct (Qle_bool (match_score r') (match_score r)) eqn:Hle.
    + apply Qle_bool_iff in Hle. constructor.
      * by constructor.
      * constructor; [exact Hle|].
        eapply Forall_impl; [exact Hall|].
        intros x Hx. unfold desc in *. lra.
    + assert (match_score r < match_score r')%Q as Hlt.
      { apply Qnot_le_lt. intros Hc. apply Qle_bool_iff in Hc. congruence. }
      constructor; [by apply IH|].
      rewrite insert_desc_perm. constructor; [|done]. unfold desc. lra.
Qed.

Lemma sort_desc_sorted l : StronglySorted desc (sort_desc l).
Proof.
  induction l as [|r l IH]; simpl; [constructor|by apply insert_desc_sorted].
Qed.

Lemma slice_to_take {A} (n : Z) (l : list A) :
  0 <= n -> slice_to n l = take (Z.to_nat n) l.
Proof. intros Hn. unfold slice_to. by rewrite (proj2 (Z.leb_le 0 n) Hn). Qed.

Lemma slice_to_sublist {A} (n : Z) (l : list A) : slice_to n l `sublist_of` l.
Proof. unfold slice_to. destruct (0 <=? n); apply sublist_take. Qed.

Section Results.
Context `{Rapidfuzz} `{SpellChecker}.

(** Every entry of the scored list is a product of the catalog that
    passed the threshold, with its rounded best score. *)
Lemma elem_of_score_products terms threshold products r :
  r ∈ score_products terms threshold products <->
  r.1 ∈ products
  /\ (threshold <= best_score terms r.1)%Q
  /\ r.2 = round1 (best_score terms r.1).
Proof.
  unfold score_products.
  rewrite (list_elem_of_In (flat_map _ _)), in_flat_map. split.
  - intros (p & Hp & Hr). apply list_elem_of_In in Hp.
    destruct (Qle_bool threshold (best_score terms p)) eqn:Hle; [|done].
    apply Qle_bool_iff in Hle. destruct Hr as [<-|[]]. done.
  - intros (Hp & Hle & Hs). exists r.1. split; [by apply list_elem_of_In|].
    apply Qle_bool_iff in Hle. rewrite Hle. left.
    destruct r as [p s]. simpl in *. by rewrite Hs.
Qed.

Lemma elem_of_search_products_fuzzy query products top_n threshold r :
  r ∈ search_products_fuzzy query products top_n threshold ->
  r.1 ∈ products
  /\ (threshold <= best_score (expand_query (correct_query query)) r.1)%Q
  /\ r.2 = round1 (best_score (expand_query (correct_query query)) r.1).
Proof.
  unfold search_products_fuzzy. intros Hr.
  apply elem_of_score_products.
  rewrite <- (sort_desc_perm (score_products _ _ _)).
  eapply elem_of_sublist; [exact Hr|apply slice_to_sublist].
Qed.

End Results.


(** *** The overrides *)

Section Overrides.
Context `{Rapidfuzz} `{SpellChecker}.

Lemma term_score_substring term name brand category keywords :
  contains term name = true ->
  term_score term name brand category keywords
  = pymax (weighted_sum term name brand category keywords) 95.
Proof. intros Hin. unfold term_score. by rewrite Hin. Qed.

Lemma term_score_substring_95 term name brand category keywords :
  contains term name = true ->
  (95 <= term_score term name brand category keywords)%Q.
Proof.
  intros Hin. rewrite term_score_substring by done. apply pymax_ge_r.
Qed.

(** The combined score with the starts-with/ends-with branch taken out. *)
Definition term_score_without_affix (term name brand category keywords : string) : Q :=
  let weighted := weighted_sum term name brand category keywords in
  if contains term name then pymax weighted 95
  else if contains term keywords then pymax weighted 75
  else weighted.

Lemma affix_contains term name :
  startswith name term || endswith name term = true -> contains term name = true.
Proof.
  intros Haffix. apply orb_true_iff in Haffix as [Hs|He].
  - by apply startswith_contains.
  - by apply endswith_contains.
Qed.

(** Taking the branch out changes no score. *)
Lemma term_score_affix_free term name brand category keywords :
  term_score term name brand category keywords
  = term_score_without_affix term name brand category keywords.
Proof.
  unfold term_score, term_score_without_affix.
  destruct (contains term name) eqn:Hin; [done|].
  destruct (startswith name term || endswith name term) eqn:Haffix; [|done].
  apply affix_contains in Haffix. congruence.
Qed.

(** The corrected query is one of the expanded terms. *)
Lemma corrected_query_expanded query :
  lower (correct_query query) ∈ expand_query (correct_query query).
Proof. apply expand_query_lower. Qed.

End Overrides.

(** C10.  The starts-with/ends-with override cannot be reached: a name
    that starts or ends with the term contains the term, so the
    substring override is the one applied and the score of the term is
    at least 95. *)
Theorem affix_branch_unreachable `{Rapidfuzz} term name brand category keywords :
  startswith name term || endswith name term = true ->
  contains term name = true
  /\ term_score term name brand category keywords
     = pymax (weighted_sum term name brand category keywords) 95
  /\ (95 <= term_score term name brand category keywords)%Q.
Proof.
  intros Haffix. apply affix_contains in Haffix.
  split; [done|]. split.
  - by apply term_score_substring.
  - by apply term_score_substring_95.
Qed.

Lemma affix_branch_unreachable_witness :
  startswith "sugar free" "sugar" || endswith "sugar free" "sugar" = true
  /\ contains "sugar" "sugar free" = true
  /\ (95 <= @term_score exact_rapidfuzz "sugar" "sugar free" "" "" "")%Q.
Proof.
  split; [reflexivity|].
  destruct (@affix_branch_unreachable exact_rapidfuzz "sugar" "sugar free" "" "" "")
    as (Hin & _ & Hscore); [reflexivity|].
  split; [exact Hin|exact Hscore].
Defined.

(** C3.  A term that is a substring of the lowered name gets a combined
    score of at least 95; so a product whose name contains the corrected
    query has a best score, and a [match_score] wherever it is returned,
    of at least 95. *)
Theorem exact_substring_floor `{Rapidfuzz} `{SpellChecker} :
  (forall term product,
     contains term (lower (name product)) = true ->
     (95 <= term_score term (lower (name product)) (lower (brand product))
              (lower (category product)) (lower (keywords product)))%Q)
  /\ (forall query product,
        contains (lower (correct_query query)) (lower (name product)) = true ->
        (95 <= best_score (expand_query (correct_query query)) product)%Q
        /\ (95 <= round1 (best_score (expand_query (correct_query query)) product))%Q)
  /\ (forall query products top_n threshold r,
        contains (lower (correct_query query)) (lower (name r.1)) = true ->
        r ∈ search_products_fuzzy query products top_n threshold ->
        (95 <= match_score r)%Q).
Proof.
  assert (forall query product,
            contains (lower (correct_query query)) (lower (name product)) = true ->
            (95 <= best_score (expand_query (correct_query query)) product)%Q)
    as Hbest.
  { intros query product Hin.
    eapply Qle_trans; [by apply term_score_substring_95|].
    apply best_score_ge, corrected_query_expanded. }
  split; [|split].
  - intros term product Hin. by apply term_score_substring_95.
  - intros query product Hin. split; [by apply Hbest|].
    by apply round1_ge_95, Hbest.
  - intros query products top_n threshold r Hin Hr.
    apply elem_of_search_products_fuzzy in Hr as (_ & _ & Hs).
    unfold match_score. rewrite Hs. by apply round1_ge_95, Hbest.
Qed.

Lemma exact_substring_floor_witness :
  contains (lower (@correct_query knows_all "Sugar")) (lower (name plain_sugar)) = true
  /\ (plain_sugar, (950 # 10)%Q)
       ∈ @search_products_fuzzy exact_rapidfuzz knows_all "Sugar" [plain_sugar] 5 50
  /\ (95 <= match_score (plain_sugar, (950 # 10)%Q))%Q.
Proof.
  assert ((plain_sugar, (950 # 10)%Q)
            ∈ @search_products_fuzzy exact_rapidfuzz knows_all "Sugar" [plain_sugar] 5 50)
    as Hr by (vm_compute; left).
  split; [reflexivity|]. split; [exact Hr|].
  destruct (@exact_substring_floor exact_rapidfuzz knows_all) as (_ & _ & Hfinal).
  apply (Hfinal "Sugar" [plain_sugar] 5 (50 : Q) (plain_sugar, (950 # 10)%Q));
    [reflexivity|exact Hr].
Defined.



(** *** Stability of the sort *)

(** [r] has the score [s]. *)
Definition scored_at (s : Q) (r : Scored) : Prop := Qeq_bool (match_score r) s = true.

#[export] Instance scored_at_dec s r : Decision (scored_at s r).
Proof. unfold scored_at. apply _. Defined.

Lemma insert_desc_filter s r l :
  filter (scored_at s) (insert_desc r l)
  = if decide (scored_at s r) then r :: filter (scored_at s) l
    else filter (scored_at s) l.
Proof.
  induction l as [|r' l IH]; simpl.
  - rewrite filter_cons. by destruct (decide (scored_at s r)).
  - destruct (Qle_bool (match_score r') (match_score r)) eqn:Hle.
    + by rewrite (filter_cons _ r).
    + assert (match_score r < match_score r')%Q as Hlt.
      { apply Qnot_le_lt. intros Hc. apply Qle_bool_iff in Hc. congruence. }
      rewrite !(filter_cons _ r'), IH.
      destruct (decide (scored_at s r')) as [Hr'|Hr']; [|done].
      destruct (decide (scored_at s r)) as [Hr|Hr]; [|done].
      exfalso. unfold scored_at in *.
      apply Qeq_bool_iff in Hr, Hr'. lra.
Qed.

Lemma sort_desc_stable s l :
  filter (scored_at s) (sort_desc l) = filter (scored_at s) l.
Proof.
  induction l as [|r l IH]; [done|].
  simpl. rewrite insert_desc_filter, IH, filter_cons.
  by destruct (decide (scored_at s r)).
Qed.

Lemma filter_take_prefix {A} (P : A -> Prop) `{forall x, Decision (P x)} n (l : list A) :
  filter P (take n l) `prefix_of` filter P l.
Proof.
  exists (filter P (drop n l)). by rewrite <- filter_app, take_drop.
Qed.

(** The scored list runs through the catalog in order, keeping some of
    its products. *)
Lemma score_products_sublist `{Rapidfuzz} terms threshold products :
  (score_products terms threshold products).*1 `sublist_of` products.
Proof.
  unfold score_products. induction products as [|p products IH]; simpl; [done|].
  destruct (Qle_bool threshold (best_score terms p)); simpl.
  - by apply sublist_skip.
  - by apply sublist_cons.
Qed.

(** *** Shape of the ranking *)

(** C2 (as the code has it).  For every catalog, query, threshold and
    [top_n >= 0], the fuzzy search returns at most [top_n] results,
    sorted so that no score is larger than one before it (equal scores
    can follow each other), every score being at most 100 and at least
    the threshold rounded to one decimal; a threshold with at most one
    decimal, like the default 50, is itself the lower bound.  Results
    with equal scores are in catalog order: for every score [s], the
    results with the score [s] are, in their order, the first entries
    with that score of the scored list, which runs through the catalog
    in order. *)
Theorem fuzzy_rank_shape `{Rapidfuzz} `{SpellChecker}
    query products top_n threshold :
  0 <= top_n ->
  let results := search_products_fuzzy query products top_n threshold in
  let scored_products :=
    score_products (expand_query (correct_query query)) threshold products in
  Z.of_nat (length results) <= top_n
  /\ StronglySorted desc results
  /\ Forall (fun r => (round1 threshold <= match_score r <= 100)%Q) results
  /\ (forall k : Z, (threshold == k # 10)%Q ->
       Forall (fun r => (threshold <= match_score r)%Q) results)
  /\ (forall s : Q,
       filter (scored_at s) results `prefix_of` filter (scored_at s) scored_products)
  /\ scored_products.*1 `sublist_of` products.
Proof.
  intros Hn results scored_products.
  assert (Forall (fun r => (round1 threshold <= match_score r <= 100)%Q) results)
    as Hrange.
  { apply Forall_forall. intros r Hr.
    apply elem_of_search_products_fuzzy in Hr as (_ & Hle & Hs).
    unfold match_score. rewrite Hs. split; [by apply round1_mono|].
    apply round1_range, best_score_range. }
  split; [|split; [|split; [done|split; [|split]]]].
  - unfold results, search_products_fuzzy. rewrite slice_to_take by done.
    rewrite length_take. lia.
  - unfold results, search_products_fuzzy. rewrite slice_to_take by done.
    eapply StronglySorted_app_1_l. rewrite take_drop. apply sort_desc_sorted.
  - intros k Hk. eapply Forall_impl; [exact Hrange|].
    intros r [Hlo _]. simpl in Hlo.
    assert (k # 10 <= round1 threshold)%Q by (apply round1_ge; lra). lra.
  - intros s. unfold results, search_products_fuzzy.
    rewrite slice_to_take by done.
    rewrite <- (sort_desc_stable s scored_products).
    apply filter_take_prefix.
  - apply score_products_sublist.
Qed.

Lemma fuzzy_rank_shape_witness :
  0 <= 1
  /\ Z.of_nat (length (@search_products_fuzzy exact_rapidfuzz knows_all
                          "sugar" [plain_sugar; plain_sugar] 1 50)) <= 1.
Proof.
  split; [lia|].
  apply (@fuzzy_rank_shape exact_rapidfuzz knows_all
           "sugar" [plain_sugar; plain_sugar] 1 50). lia.
Defined.

(** C2, as stated, fails: two products with the same score follow each
    other, so the ranking is not strictly descending. *)
Lemma equal_scores_not_strict :
  @search_products_fuzzy exact_rapidfuzz knows_all
    "sugar" [plain_sugar; plain_sugar] 5 50
  = [(plain_sugar, (950 # 10)%Q); (plain_sugar, (950 # 10)%Q)]
  /\ ~ StronglySorted strictly_desc
        (@search_products_fuzzy exact_rapidfuzz knows_all
           "sugar" [plain_sugar; plain_sugar] 5 50).
Proof.
  assert (@search_products_fuzzy exact_rapidfuzz knows_all
            "sugar" [plain_sugar; plain_sugar] 5 50
          = [(plain_sugar, (950 # 10)%Q); (plain_sugar, (950 # 10)%Q)]) as Hres
    by (vm_compute; reflexivity).
  split; [exact Hres|]. rewrite Hres. intros Hsorted.
  apply StronglySorted_inv in Hsorted as [_ Hall].
  apply Forall_cons in Hall as [Hlt _].
  unfold strictly_desc, match_score in Hlt. simpl in Hlt. lra.
Qed.

(** The tie does not depend on the scorer: with threshold 0 every
    product is kept, and a product listed twice has one score. *)
Lemma duplicate_products_tie `{Rapidfuzz} `{SpellChecker} query product :
  search_products_fuzzy query [product; product] 5 0
  = [(product, round1 (best_score (expand_query (correct_query query)) product));
     (product, round1 (best_score (expand_query (correct_query query)) product))].
Proof.
  unfold search_products_fuzzy, score_products. simpl.
  pose proof (best_score_range (expand_query (correct_query query)) product) as [Hlo _].
  apply Qle_bool_iff in Hlo. rewrite Hlo. simpl.
  unfold match_score. simpl.
  assert (Qle_bool (round1 (best_score (expand_query (correct_query query)) product))
                   (round1 (best_score (expand_query (correct_query query)) product))
          = true) as -> by (apply Qle_bool_iff; lra).
  reflexivity.
Qed.

(** A scorer that finds every pair of texts one-third similar. *)
Definition one_third : Rapidfuzz.
Proof.
  refine {| WRatio := fun _ _ => (100 # 3)%Q;
            partial_ratio := fun _ _ => (100 # 3)%Q;
            token_set_ratio := fun _ _ => (100 # 3)%Q |};
    intros; split; unfold Qle; simpl; lia.
Defined.

(** Rounding can take a kept score below a threshold that has more than
    one decimal: the best score 33.33... passes 33.32 and is stored as
    33.3. *)
Example rounded_below_threshold :
  exists r, @search_products_fuzzy one_third knows_all "tea" [plain_sugar] 5 (3332 # 100)
            = [r]
            /\ (match_score r < 3332 # 100)%Q.
Proof.
  eexists. split; [vm_compute; reflexivity|]. unfold match_score, Qlt. simpl. lia.
Qed.

(** *** The empty query *)

Section EmptyQuery.
Context `{Rapidfuzz} `{SpellChecker} `{Matcher}.

Lemma search_products_no_client db query top_n threshold :
  client_available = false ->
  search_products db query top_n threshold
  = search_products_fuzzy query (get_all_products db) top_n threshold.
Proof.
  intros Hoff. unfold search_products, search_with_llm. rewrite Hoff. simpl.
  destruct (get_all_products db); [|done].
  unfold search_products_fuzzy, slice_to. simpl.
  by destruct (0 <=? top_n); [destruct (Z.to_nat top_n)|].
Qed.

Lemma correct_query_empty : correct_query "" = "".
Proof. reflexivity. Qed.

Lemma best_score_empty_query product :
  (95 <= best_score (expand_query "") product)%Q.
Proof.
  rewrite expand_empty.
  eapply Qle_trans; [|apply (best_score_ge [""] product ""); set_solver].
  apply term_score_substring_95, contains_empty.
Qed.

Lemma score_products_all terms threshold products :
  (forall p, threshold <= best_score terms p)%Q ->
  score_products terms threshold products
  = (fun p => (p, round1 (best_score terms p))) <$> products.
Proof.
  intros Hall. unfold score_products.
  induction products as [|p products IH]; [done|].
  simpl. rewrite IH. pose proof (Hall p) as Hp.
  apply Qle_bool_iff in Hp. by rewrite Hp.
Qed.

End EmptyQuery.


End RankFacts.

(* ===================================================================== *)
(** ** The empty query *)
(* ===================================================================== *)

Module EmptyQueryFacts.
Import PyStr PyStrFacts Database Search Api ScoreFacts ExpandFacts RankFacts.

(** A catalog that holds one product. *)
Definition sugar_store : Store :=
  {| store_config := ∅; all_aisles := []; all_products := [plain_sugar] |}.

(** C6 (as the code has it).  The guard against an empty query is in
    the [GET /search] endpoint: when [n] is absent or a numeral, it
    answers a [q] that is absent or blank with the error "No query
    provided" and searches nothing.  [search_products] has no guard:
    without the remote matcher, for [top_n >= 0] and a threshold of at
    most 95, the empty query is ranked like any other, and as the empty
    text is a substring of every name every product passes, so exactly
    [min top_n (size of the catalog)] results come back, each with a
    score of at least 95. *)
Theorem empty_query_guarded_by_endpoint `{Rapidfuzz} `{SpellChecker} `{Matcher}
    db (top_n : Z) (threshold : Q) :
  (forall q n, strip (default "" q) = "" ->
     (forall s, n = Some s -> is_Some (int s)) ->
     search_endpoint db q n = Some (BadRequest "No query provided"))
  /\ (client_available = false -> 0 <= top_n -> (threshold <= 95)%Q ->
      length (search_products db "" top_n threshold)
      = (Z.to_nat top_n `min` length (get_all_products db))%nat
      /\ Forall (fun r => (95 <= match_score r)%Q)
                (search_products db "" top_n threshold)).
Proof.
  split.
  - intros q n Hq Hn. unfold search_endpoint. rewrite Hq.
    destruct n as [s|]; [|done].
    destruct (Hn s eq_refl) as [k Hk]. by rewrite Hk.
  - intros Hoff Hn Hthr.
    rewrite search_products_no_client by done.
    unfold search_products_fuzzy. rewrite correct_query_empty.
    rewrite slice_to_take by done. split.
    + rewrite length_take, sort_desc_perm, score_products_all, length_fmap; [done|].
      intros p. pose proof (best_score_empty_query p). lra.
    + apply Forall_forall. intros r Hr.
      apply elem_of_take in Hr as (i & Hr & _).
      apply list_elem_of_lookup_2 in Hr. rewrite sort_desc_perm in Hr.
      apply elem_of_score_products in Hr as (_ & _ & Hs).
      unfold match_score. rewrite Hs.
      apply round1_ge_95, best_score_empty_query.
Qed.

Lemma empty_query_returns_products_witness :
  @client_available no_matcher = false
  /\ 0 <= 5
  /\ (50 <= 95)%Q
  /\ length (@search_products exact_rapidfuzz knows_all no_matcher sugar_store "" 5 50)
     = 1%nat.
Proof.
  split; [reflexivity|]. split; [lia|]. split; [unfold Qle; simpl; lia|].
  destruct (@empty_query_guarded_by_endpoint exact_rapidfuzz knows_all no_matcher
              sugar_store 5 50) as [_ Hsearch].
  destruct Hsearch as [Hlen _]; [reflexivity|lia|unfold Qle; simpl; lia|].
  exact Hlen.
Defined.

(** C6, as stated, fails: on a catalog with one product the empty query
    returns that product, with the score 95. *)
Lemma empty_query_returns_products :
  @search_products exact_rapidfuzz knows_all no_matcher sugar_store "" 5 50
  = [(plain_sugar, (950 # 10)%Q)]
  /\ @search_products exact_rapidfuzz knows_all no_matcher sugar_store "" 5 50 <> [].
Proof.
  assert (@search_products exact_rapidfuzz knows_all no_matcher sugar_store "" 5 50
          = [(plain_sugar, (950 # 10)%Q)]) as Hres by (vm_compute; reflexivity).
  split; [exact Hres|]. by rewrite Hres.
Qed.

Example endpoint_rejects_blank :
  @search_endpoint exact_rapidfuzz knows_all no_matcher sugar_store (Some "  ") None
  = Some (BadRequest "No query provided").
Proof. vm_compute. reflexivity. Qed.

End EmptyQueryFacts.

(* ===================================================================== *)
(** ** The reply on an empty catalog *)
(* ===================================================================== *)

Module PipelineFacts.
Import PyStr PyStrFacts Database Pathfinding Search Pipeline RankFacts.

Lemma append_nonempty s t : s <> "" -> s +:+ t <> "".
Proof. destruct s as [|c s]; [done|]. intros _ Heq. discriminate Heq. Qed.

Lemma choice_elem pick options : options <> [] -> choice pick options ∈ options.
Proof.
  intros Hne. unfold choice. apply list_elem_of_In, nth_In.
  apply Nat.mod_upper_bound. by destruct options.
Qed.

Lemma choice_no_match_nonempty pick : choice pick no_match <> "".
Proof.
  assert (choice pick no_match ∈ no_match) as Hin by (by apply choice_elem).
  unfold no_match in Hin at 2. rewrite !elem_of_cons, elem_of_nil in Hin.
  destruct Hin as [->|[->|[->|[]]]]; done.
Qed.

Lemma choice_generic_nonempty pick : choice pick generic <> "".
Proof.
  assert (choice pick generic ∈ generic) as Hin by (by apply choice_elem).
  unfold generic in Hin at 2. rewrite !elem_of_cons, elem_of_nil in Hin.
  destruct Hin as [->|[->|[->|[]]]]; done.
Qed.

Lemma found_response_nonempty lines : found_response lines <> "".
Proof.
  unfold found_response.
  repeat case_bool_decide; repeat apply append_nonempty; done.
Qed.

(** The fallback never answers with the empty text. *)
Lemma generate_fallback_response_nonempty pick messages :
  generate_fallback_response pick messages <> "".
Proof.
  unfold generate_fallback_response.
  destruct (_ && _); [apply found_response_nonempty|].
  destruct (contains _ _);
    [apply choice_no_match_nonempty|apply choice_generic_nonempty].
Qed.

Section EmptyCatalog.
Context `{Rapidfuzz} `{SpellChecker} `{Matcher}.

(** On an empty catalog the search returns nothing, whatever the query. *)
Lemma search_products_empty_catalog db query top_n threshold :
  get_all_products db = [] -> search_products db query top_n threshold = [].
Proof. intros Hempty. unfold search_products. by rewrite Hempty. Qed.

(** On an empty catalog [chat] returns, without products or directions,
    and its reply is not empty. *)
Lemma chat_empty_catalog db pick user_query history :
  get_all_products db = [] ->
  exists result,
    chat db pick user_query history = Some result
    /\ products result = []
    /\ directions result = None
    /\ response result <> "".
Proof.
  intros Hempty. unfold chat.
  rewrite search_products_empty_catalog by done. simpl.
  eexists. split; [reflexivity|]. simpl.
  split; [done|]. split; [done|].
  apply generate_fallback_response_nonempty.
Qed.

End EmptyCatalog.

Definition empty_store : Store :=
  {| store_config := ∅; all_aisles := []; all_products := [] |}.

(** A query that quotes the wording of the search context. *)
Definition quoting_query : string :=
  "matching products from the store inventory" +:+ nl +:+ "- **".

(** On an ordinary query the reply is one of the apologies. *)
Example chat_empty_catalog_sugar :
  response <$> @chat exact_rapidfuzz knows_all no_matcher empty_store 1 "sugar" []
  = Some "No exact match. Try broader terms like the product category or brand name.".
Proof. vm_compute. reflexivity. Qed.

(** C5 at the failing input.  The catalog is empty and the search
    returns nothing, yet for a query that quotes the context wording
    and a product bullet the reply is the text for found products,
    which is none of the apologies or greetings. *)
Theorem chat_empty_catalog_quoting_query :
  @search_products exact_rapidfuzz knows_all no_matcher empty_store quoting_query 3 50
  = []
  /\ response <$> @chat exact_rapidfuzz knows_all no_matcher empty_store 0 quoting_query []
     = Some "Here's what I found."
  /\ "Here's what I found." ∉ no_match ++ generic.
Proof.
  split; [reflexivity|]. split; [vm_compute; reflexivity|].
  unfold no_match, generic. simpl.
  rewrite !elem_of_cons, elem_of_nil. intros [?|[?|[?|[?|[?|[?|[]]]]]]]; discriminate.
Qed.

End PipelineFacts.

(* ===================================================================== *)
(** ** More on the paths of the breadth-first search *)
(* ===================================================================== *)

Module PathFacts.
Import Database Pathfinding BfsTermination BfsCorrectness.

(** The search from a start inside the grid, as a shortest walk. *)
Lemma bfs_path_walk grid rows cols start target :
  in_grid rows cols start = true ->
  in_grid rows cols target = true ->
  exists path, bfs_path grid start target rows cols = Path path
               /\ shortest_walk start target path.
Proof.
  intros Hstart Htarget. unfold bfs_path. case_bool_decide as Heq.
  - subst target. exists [start]. split; [done|].
    split; simpl; try done. unfold manhattan. lia.
  - change [(start, [start])]
      with ([(start, [start])] ++ ([] : list ((Z * Z) * list (Z * Z)))).
    apply (bfs_loop_inv rows cols start target Hstart _ Htarget 0).
    + by apply Inv_initial.
    + apply initial_measure.
Qed.

(** *** The path stays inside the grid *)

Section InGrid.
Variables (rows cols : Z) (target : Z * Z).

Abbreviation inside := (Forall (fun p => in_grid rows cols p = true)).

Lemma scan_inside dirs x y path visited queue :
  inside path ->
  Forall (fun e => inside e.2) queue ->
  match scan dirs x y path target rows cols visited queue with
  | Reached p => inside p
  | Scanned _ queue' => Forall (fun e => inside e.2) queue'
  end.
Proof.
  intros Hpath. revert visited queue.
  induction dirs as [|[dx dy] dirs IH]; intros visited queue Hqueue; [done|].
  cbn [scan].
  destruct (in_grid rows cols (x + dx, y + dy)) eqn:Hin; simpl; [|by apply IH].
  case_bool_decide; simpl; [by apply IH|].
  assert (inside (path ++ [(x + dx, y + dy)])) as Hnew.
  { apply Forall_app. split; [done|]. by constructor. }
  case_bool_decide; [done|].
  apply IH. apply Forall_app. split; [done|]. by constructor.
Qed.

Lemma bfs_loop_inside fuel visited queue p :
  Forall (fun e => inside e.2) queue ->
  bfs_loop fuel target rows cols visited queue = Path p ->
  inside p.
Proof.
  revert visited queue.
  induction fuel as [|fuel IH]; intros visited queue Hqueue;
    destruct queue as [|[[x y] path] queue]; cbn [bfs_loop]; try done.
  apply Forall_cons in Hqueue as [Hpath Hqueue]. simpl in Hpath.
  pose proof (scan_inside directions x y path visited queue Hpath Hqueue) as Hscan.
  destruct (scan directions x y path target rows cols visited queue)
    as [q|visited' queue']; [by intros [= <-]|].
  by apply IH.
Qed.

(** A target outside the grid is never entered. *)
Lemma scan_outside dirs x y path visited queue :
  in_grid rows cols target = false ->
  forall p, scan dirs x y path target rows cols visited queue <> Reached p.
Proof.
  intros Hout p. revert visited queue.
  induction dirs as [|[dx dy] dirs IH]; intros visited queue; [done|].
  cbn [scan].
  destruct (in_grid rows cols (x + dx, y + dy)) eqn:Hin; simpl; [|by apply IH].
  case_bool_decide; simpl; [by apply IH|].
  case_bool_decide as Htgt; [|by apply IH].
  rewrite Htgt in Hin. congruence.
Qed.

Lemma bfs_loop_outside fuel visited queue :
  in_grid rows cols target = false ->
  forall p, bfs_loop fuel target rows cols visited queue <> Path p.
Proof.
  intros Hout p. revert visited queue.
  induction fuel as [|fuel IH]; intros visited queue;
    destruct queue as [|[[x y] path] queue]; cbn [bfs_loop]; try done.
  pose proof (scan_outside directions x y path visited queue Hout) as Hscan.
  destruct (scan directions x y path target rows cols visited queue)
    as [q|visited' queue']; [by destruct (Hscan q)|].
  apply IH.
Qed.

End InGrid.

(** *** Every step leads away from the start *)

(** Each cell is one unit further from [s] than the cell before it. *)
Fixpoint climbing (s : Z * Z) (path : list (Z * Z)) : Prop :=
  match path with
  | p :: (q :: _) as rest => manhattan s q = manhattan s p + 1 /\ climbing s rest
  | _ => True
  end.

Lemma walk_dist_upper s t p rest :
  stepwise (p :: rest) -> last (p :: rest) = Some t ->
  manhattan s t <= manhattan s p + Z.of_nat (length rest).
Proof.
  revert p. induction rest as [|q rest IH]; intros p Hsteps Hlast.
  - injection Hlast as ->. simpl. lia.
  - destruct Hsteps as [Hpq Hrest].
    specialize (IH q Hrest Hlast).
    destruct (unit_step_dist s p q Hpq); simpl length; lia.
Qed.

Lemma tight_walk_climbing s t p rest :
  stepwise (p :: rest) -> last (p :: rest) = Some t ->
  manhattan s t = manhattan s p + Z.of_nat (length rest) ->
  climbing s (p :: rest).
Proof.
  revert p. induction rest as [|q rest IH]; intros p Hsteps Hlast Hlen; [done|].
  destruct Hsteps as [Hpq Hrest].
  pose proof (walk_dist_upper s t q rest Hrest Hlast) as Hup.
  simpl length in Hlen.
  assert (manhattan s q = manhattan s p + 1) as Hq
    by (destruct (unit_step_dist s p q Hpq); lia).
  split; [done|]. apply IH; [done|done|lia].
Qed.

Lemma climbing_later s p rest :
  climbing s (p :: rest) -> Forall (fun q => manhattan s p < manhattan s q) rest.
Proof.
  revert p. induction rest as [|q rest IH]; intros p Hclimb; [done|].
  destruct Hclimb as [Hq Hrest]. constructor; [lia|].
  eapply Forall_impl; [by apply IH|]. simpl. intros r Hr. lia.
Qed.

Lemma climbing_NoDup s path : climbing s path -> NoDup path.
Proof.
  induction path as [|p rest IH]; intros Hclimb; [constructor|].
  constructor.
  - intros Hin. pose proof (climbing_later s p rest Hclimb) as Hlater.
    rewrite Forall_forall in Hlater. specialize (Hlater p Hin). lia.
  - apply IH. destruct rest; [done|]. by destruct Hclimb.
Qed.

(** X2.  Between two cells of the grid the path found stays inside the
    grid, never enters a cell twice, and every step takes it one unit
    further from the start. *)
Theorem bfs_path_inside_and_simple grid rows cols start target path :
  in_grid rows cols start = true ->
  in_grid rows cols target = true ->
  bfs_path grid start target rows cols = Path path ->
  Forall (fun p => in_grid rows cols p = true) path
  /\ NoDup path
  /\ climbing start path.
Proof.
  intros Hstart Htarget Hpath.
  assert (climbing start path) as Hclimb.
  { destruct (bfs_path_walk grid rows cols start target Hstart Htarget)
      as (path' & Hpath' & [Hh Hl Hs Hlen]).
    rewrite Hpath in Hpath'. injection Hpath' as <-.
    destruct path as [|p rest]; [done|]. injection Hh as ->.
    apply tight_walk_climbing with target; [done|done|].
    simpl length in Hlen. unfold manhattan at 2. lia. }
  split; [|split; [by apply climbing_NoDup with start|done]].
  unfold bfs_path in Hpath. case_bool_decide.
  - injection Hpath as <-. by constructor.
  - eapply bfs_loop_inside; [|exact Hpath].
    constructor; [|done]. simpl. by constructor.
Qed.

Lemma bfs_path_inside_and_simple_witness :
  in_grid 6 5 (2, 3) = true /\ in_grid 6 5 (0, 1) = true
  /\ NoDup [(2, 3); (2, 2); (2, 1); (1, 1); (0, 1)].
Proof.
  split; [reflexivity|]. split; [reflexivity|].
  apply (bfs_path_inside_and_simple (empty_grid 6 5) 6 5 (2, 3) (0, 1));
    [reflexivity|reflexivity|vm_compute; reflexivity].
Defined.

(** X3.  When the target lies outside the grid (and is not the start
    itself) the search ends without a path. *)
Theorem bfs_path_target_outside grid rows cols start target :
  in_grid rows cols target = false ->
  start <> target ->
  bfs_path grid start target rows cols = NoPath.
Proof.
  intros Hout Hne. unfold bfs_path. rewrite bool_decide_eq_false_2 by done.
  pose proof (bfs_loop_total (bfs_fuel rows cols) target rows cols
                {[ start ]} [(start, [start])] (initial_measure rows cols start))
    as Htotal.
  pose proof (bfs_loop_outside rows cols target (bfs_fuel rows cols)
                {[ start ]} [(start, [start])] Hout) as Hnone.
  destruct (bfs_loop (bfs_fuel rows cols) target rows cols {[ start ]}
              [(start, [start])]) as [p| |]; [by destruct (Hnone p)|done|done].
Qed.

Lemma bfs_path_target_outside_witness :
  in_grid 6 5 (6, 0) = false /\ (0, 0) <> (6, 0)
  /\ bfs_path (empty_grid 6 5) (0, 0) (6, 0) 6 5 = NoPath.
Proof.
  split; [reflexivity|]. split; [done|].
  apply bfs_path_target_outside; [reflexivity|done].
Defined.

(** X1.  The search loop always ends: whatever the arguments (a start
    outside the grid, a grid without cells), [bfs_path] gives a path or
    no path within one turn of the loop per cell of the grid and one
    more. *)
Theorem bfs_path_terminates grid rows cols start target :
  (exists path, bfs_path grid start target rows cols = Path path)
  \/ bfs_path grid start target rows cols = NoPath.
Proof.
  pose proof (bfs_loop_total (bfs_fuel rows cols) target rows cols
                {[ start ]} [(start, [start])] (initial_measure rows cols start))
    as Htotal.
  unfold bfs_path. case_bool_decide; [left; by eexists|].
  destruct (bfs_loop (bfs_fuel rows cols) target rows cols {[ start ]}
              [(start, [start])]) as [p| |]; [left; by exists p|by right|done].
Qed.

End PathFacts.

(* ===================================================================== *)
(** ** The store grid and the directions built on it *)
(* ===================================================================== *)

Module StoreGridFacts.
Import Database Pathfinding BfsTermination BfsCorrectness PathFacts DirectionsFacts.

(** *** The lookup *)

Lemma fill_lookup_coords rows cols aisles acc n p :
  (fold_left (place_aisle rows cols) aisles acc).2 !! n = Some p ->
  acc.2 !! n = Some p
  \/ exists a, a ∈ aisles /\ a_name a = n /\ p = (grid_x a, grid_y a)
               /\ in_grid rows cols p = true.
Proof.
  revert acc. induction aisles as [|a aisles IH]; intros acc; simpl.
  - by left.
  - intros Hlook. apply IH in Hlook as [Hacc|(a' & Hin & Hname & Hp & Hgrid)].
    + unfold place_aisle in Hacc.
      destruct (in_grid rows cols (grid_x a, grid_y a)) eqn:Hgrid; [|by left].
      simpl in Hacc. destruct (decide (a_name a = n)) as [Hn|Hn].
      * right. exists a. subst n. rewrite lookup_insert_eq in Hacc.
        injection Hacc as <-. split; [set_solver|done].
      * left. by rewrite lookup_insert_ne in Hacc.
    + right. exists a'. split; [set_solver|done].
Qed.

Lemma fill_lookup_other rows cols aisles acc n :
  n ∉ (a_name <$> aisles) ->
  (fold_left (place_aisle rows cols) aisles acc).2 !! n = acc.2 !! n.
Proof.
  revert acc. induction aisles as [|a aisles IH]; intros acc Hn; [done|].
  simpl in *. apply not_elem_of_cons in Hn as [Hna Hn].
  rewrite IH by done. unfold place_aisle.
  destruct (in_grid rows cols (grid_x a, grid_y a)); [|done].
  simpl. by rewrite lookup_insert_ne.
Qed.

Lemma fill_lookup_placed rows cols aisles acc a :
  NoDup (a_name <$> aisles) -> a ∈ aisles ->
  in_grid rows cols (grid_x a, grid_y a) = true ->
  (fold_left (place_aisle rows cols) aisles acc).2 !! a_name a
  = Some (grid_x a, grid_y a).
Proof.
  revert acc. induction aisles as [|b aisles IH]; intros acc Hnd Hin Hgrid.
  - by apply elem_of_nil in Hin.
  - simpl in *. apply NoDup_cons in Hnd as [Hb Hnd].
    apply elem_of_cons in Hin as [->|Hin].
    + rewrite fill_lookup_other by done. unfold place_aisle. rewrite Hgrid.
      simpl. by rewrite lookup_insert_eq.
    + by apply IH.
Qed.

(** X4.  With unique aisle names the lookup holds exactly the aisles
    whose cell is inside the grid, each under its name with its own
    coordinates. *)
Theorem aisle_positions_exact db grid rows cols positions n p :
  build_store_grid db = Some (grid, rows, cols, positions) ->
  NoDup (a_name <$> get_all_aisles db) ->
  positions !! n = Some p
  <-> exists a, a ∈ get_all_aisles db /\ a_name a = n
                /\ p = (grid_x a, grid_y a) /\ in_grid rows cols p = true.
Proof.
  intros Hb Hnd. apply build_store_grid_fill in Hb.
  assert (positions = (fill_grid rows cols (get_all_aisles db)).2) as ->
    by (by rewrite Hb).
  unfold fill_grid. split.
  - intros Hlook. apply fill_lookup_coords in Hlook as [Hemp|Ha]; [|done].
    simpl in Hemp. by rewrite lookup_empty in Hemp.
  - intros (a & Hin & <- & -> & Hgrid). by apply fill_lookup_placed.
Qed.

Lemma aisle_positions_exact_witness :
  NoDup (a_name <$> get_all_aisles demo_store)
  /\ (fill_grid 6 5 (all_aisles demo_store)).2 !! "A1" = Some (0, 2).
Proof.
  assert (NoDup (a_name <$> get_all_aisles demo_store)) as Hnd
    by (vm_compute; repeat constructor; set_solver).
  split; [exact Hnd|].
  apply (aisle_positions_exact demo_store
           (fill_grid 6 5 (all_aisles demo_store)).1 6 5
           (fill_grid 6 5 (all_aisles demo_store)).2 "A1" (0, 2));
    [reflexivity|exact Hnd|].
  exists {| a_name := "A1"; a_section := "Grocery"; grid_x := 0; grid_y := 2 |}.
  split; [vm_compute; set_solver|done].
Defined.

(** *** The occupancy grid *)

(** [grid[x][y]], when both indices are in range. *)
Definition cell (grid : list (list Z)) (x y : Z) : option Z :=
  grid !! Z.to_nat x ≫= fun row => row !! Z.to_nat y.

Definition well_sized (rows cols : Z) (grid : list (list Z)) : Prop :=
  length grid = Z.to_nat rows
  /\ Forall (fun row => length row = Z.to_nat cols) grid.

Lemma empty_grid_sized rows cols : well_sized rows cols (empty_grid rows cols).
Proof.
  unfold well_sized, empty_grid. rewrite length_replicate. split; [done|].
  apply Forall_replicate, length_replicate.
Qed.

Lemma empty_grid_cell rows cols x y :
  in_grid rows cols (x, y) = true -> cell (empty_grid rows cols) x y = Some 0.
Proof.
  rewrite in_grid_spec. simpl. intros [Hx Hy]. unfold cell, empty_grid.
  rewrite lookup_replicate_2 by lia. simpl.
  by rewrite lookup_replicate_2 by lia.
Qed.

Lemma place_aisle_sized rows cols acc a :
  well_sized rows cols acc.1 -> well_sized rows cols (place_aisle rows cols acc a).1.
Proof.
  intros [Hlen Hrows]. unfold place_aisle.
  destruct (in_grid rows cols (grid_x a, grid_y a)); [|done].
  simpl. split; [by rewrite length_alter|].
  apply Forall_alter; [done|]. intros row _ Hrow. by rewrite length_insert.
Qed.

Lemma place_aisle_cell rows cols acc a x y :
  well_sized rows cols acc.1 ->
  in_grid rows cols (x, y) = true ->
  cell (place_aisle rows cols acc a).1 x y
  = if bool_decide ((grid_x a, grid_y a) = (x, y)) then Some 1
    else cell acc.1 x y.
Proof.
  intros [Hlen Hrows] Hxy. unfold place_aisle.
  case_bool_decide as Heq.
  - injection Heq as -> ->. rewrite Hxy. simpl.
    apply in_grid_spec in Hxy as [Hx Hy]. simpl in Hx, Hy.
    unfold cell.
    destruct (acc.1 !! Z.to_nat x) as [row|] eqn:Hrow.
    + rewrite list_lookup_alter_eq, Hrow. simpl.
      rewrite Forall_forall in Hrows.
      assert (length row = Z.to_nat cols) as Hlr
        by (apply Hrows; by eapply list_elem_of_lookup_2).
      apply list_lookup_insert_eq. lia.
    + apply lookup_ge_None in Hrow. lia.
  - destruct (in_grid rows cols (grid_x a, grid_y a)) eqn:Ha; [|done].
    simpl. unfold cell.
    destruct (decide (Z.to_nat (grid_x a) = Z.to_nat x)) as [Hsame|Hdiff].
    + rewrite Hsame, list_lookup_alter_eq.
      destruct (acc.1 !! Z.to_nat x) as [row|]; [|done]. simpl.
      apply list_lookup_insert_ne.
      apply in_grid_spec in Ha as [Hax Hay]. apply in_grid_spec in Hxy as [Hx Hy].
      simpl in *. intros Hy'. apply Heq. f_equal; lia.
    + by rewrite list_lookup_alter_ne.
Qed.

Lemma fill_grid_cell rows cols aisles acc x y :
  well_sized rows cols acc.1 ->
  in_grid rows cols (x, y) = true ->
  cell (fold_left (place_aisle rows cols) aisles acc).1 x y
  = if bool_decide (Exists (fun a => (grid_x a, grid_y a) = (x, y)) aisles)
    then Some 1 else cell acc.1 x y.
Proof.
  intros Hsized Hxy. revert acc Hsized.
  induction aisles as [|a aisles IH]; intros acc Hsized; cbn [fold_left].
  - case_bool_decide as Hex; [by apply Exists_nil in Hex|done].
  - rewrite IH by (by apply place_aisle_sized).
    rewrite place_aisle_cell by done.
    destruct (decide (Exists (fun a => (grid_x a, grid_y a) = (x, y)) aisles))
      as [Hrest|Hrest].
    + rewrite !bool_decide_eq_true_2; [done|by apply Exists_cons_tl|done].
    + rewrite (bool_decide_eq_false_2 _ Hrest).
      destruct (decide ((grid_x a, grid_y a) = (x, y))) as [Ha|Ha].
      * rewrite !bool_decide_eq_true_2; [done|by apply Exists_cons_hd|done].
      * rewrite !bool_decide_eq_false_2; [done| |done].
        intros Hex. apply Exists_cons in Hex as [?|?]; done.
Qed.

Lemma fill_grid_sized rows cols aisles acc :
  well_sized rows cols acc.1 ->
  well_sized rows cols (fold_left (place_aisle rows cols) aisles acc).1.
Proof.
  revert acc. induction aisles as [|a aisles IH]; intros acc Hsized; [done|].
  simpl. by apply IH, place_aisle_sized.
Qed.

(** X5.  The grid has [rows] rows of [cols] cells; a cell holds 1 when
    some aisle is stored at its coordinates and 0 otherwise. *)
Theorem store_grid_marks_aisles db grid rows cols positions :
  build_store_grid db = Some (grid, rows, cols, positions) ->
  length grid = Z.to_nat rows
  /\ Forall (fun row => length row = Z.to_nat cols) grid
  /\ forall x y, in_grid rows cols (x, y) = true ->
       cell grid x y
       = Some (if bool_decide (Exists (fun a => (grid_x a, grid_y a) = (x, y))
                                      (get_all_aisles db))
               then 1 else 0).
Proof.
  intros Hb. apply build_store_grid_fill in Hb.
  assert (grid = (fill_grid rows cols (get_all_aisles db)).1) as ->
    by (by rewrite Hb).
  unfold fill_grid.
  pose proof (fill_grid_sized rows cols (get_all_aisles db) (empty_grid rows cols, ∅)
                (empty_grid_sized rows cols)) as [Hlen Hrows].
  split; [done|]. split; [done|].
  intros x y Hxy. rewrite fill_grid_cell by (done || apply empty_grid_sized).
  simpl. rewrite empty_grid_cell by done. by case_bool_decide.
Qed.

Lemma store_grid_marks_aisles_witness :
  cell (fill_grid 6 5 (all_aisles demo_store)).1 0 2 = Some 1
  /\ cell (fill_grid 6 5 (all_aisles demo_store)).1 1 1 = Some 0.
Proof.
  destruct (store_grid_marks_aisles demo_store
              (fill_grid 6 5 (all_aisles demo_store)).1 6 5
              (fill_grid 6 5 (all_aisles demo_store)).2 eq_refl)
    as (_ & _ & Hcell).
  split.
  - rewrite (Hcell 0 2 eq_refl). reflexivity.
  - rewrite (Hcell 1 1 eq_refl). reflexivity.
Defined.

End StoreGridFacts.

(* ===================================================================== *)
(** ** Routes: what the navigator returns *)
(* ===================================================================== *)

Module RouteFacts.
Import Database Pathfinding BfsTermination BfsCorrectness PathFacts
       DirectionsFacts StoreGridFacts.

(** *** Any returned path is a walk from start to target *)

Definition walk (start c : Z * Z) (path : list (Z * Z)) : Prop :=
  head path = Some start /\ last path = Some c /\ stepwise path.

Section Walks.
Variables (rows cols : Z) (start target : Z * Z).

Lemma scan_walk dirs x y path visited queue :
  Forall (fun dir => dir ∈ directions) dirs ->
  walk start (x, y) path ->
  Forall (fun e => walk start e.1 e.2) queue ->
  match scan dirs x y path target rows cols visited queue with
  | Reached p => walk start target p
  | Scanned _ queue' => Forall (fun e => walk start e.1 e.2) queue'
  end.
Proof.
  intros Hdirs Hpath. revert visited queue.
  induction dirs as [|[dx dy] dirs IH]; intros visited queue Hqueue; [done|].
  apply Forall_cons in Hdirs as [Hdir Hdirs]. specialize (IH Hdirs).
  cbn [scan].
  destruct (in_grid rows cols (x + dx, y + dy)); simpl; [|by apply IH].
  case_bool_decide; simpl; [by apply IH|].
  assert (walk start (x + dx, y + dy) (path ++ [(x + dx, y + dy)])) as Hnew.
  { destruct Hpath as (Hh & Hl & Hs). split; [by apply head_snoc|].
    split; [by rewrite last_snoc|].
    apply stepwise_snoc with (x, y); [done|done|].
    apply (move_unit_step (x, y) (dx, dy) Hdir). }
  case_bool_decide as Htgt; [by rewrite <- Htgt|].
  apply IH. apply Forall_app. split; [done|]. by constructor.
Qed.

Lemma bfs_loop_walk fuel visited queue p :
  Forall (fun e => walk start e.1 e.2) queue ->
  bfs_loop fuel target rows cols visited queue = Path p ->
  walk start target p.
Proof.
  revert visited queue.
  induction fuel as [|fuel IH]; intros visited queue Hqueue;
    destruct queue as [|[[x y] path] queue]; cbn [bfs_loop]; try done.
  apply Forall_cons in Hqueue as [Hpath Hqueue]. simpl in Hpath.
  assert (Forall (fun dir => dir ∈ directions) directions) as Hdirs
    by (by apply Forall_forall).
  pose proof (scan_walk directions x y path visited queue Hdirs Hpath Hqueue)
    as Hscan.
  destruct (scan directions x y path target rows cols visited queue)
    as [q|visited' queue']; [by intros [= <-]|].
  by apply IH.
Qed.

End Walks.

(** X6.  Whatever the arguments (a start outside the grid included), a
    path that [bfs_path] returns begins at the start, ends at the
    target and moves by one unit in one coordinate at every step. *)
Theorem bfs_path_sound grid rows cols start target path :
  bfs_path grid start target rows cols = Path path ->
  head path = Some start /\ last path = Some target /\ stepwise path.
Proof.
  unfold bfs_path. case_bool_decide as Heq.
  - intros [= <-]. by subst target.
  - apply bfs_loop_walk. constructor; [|done]. by split.
Qed.

Lemma bfs_path_sound_witness :
  bfs_path (empty_grid 6 5) (6, 1) (5, 2) 6 5 = Path [(6, 1); (5, 1); (5, 2)]
  /\ head [(6, 1); (5, 1); (5, 2)] = Some (6, 1)
  /\ last [(6, 1); (5, 1); (5, 2)] = Some (5, 2)
  /\ stepwise [(6, 1); (5, 1); (5, 2)].
Proof.
  assert (bfs_path (empty_grid 6 5) (6, 1) (5, 2) 6 5
          = Path [(6, 1); (5, 1); (5, 2)]) as Hpath by (vm_compute; reflexivity).
  split; [exact Hpath|].
  apply (bfs_path_sound (empty_grid 6 5) 6 5 (6, 1) (5, 2)). exact Hpath.
Defined.

(** *** A start cut off from the grid *)

Lemma bfs_path_isolated grid rows cols start target :
  (forall dir, dir ∈ directions -> in_grid rows cols (move start dir) = false) ->
  start <> target ->
  bfs_path grid start target rows cols = NoPath.
Proof.
  intros Hiso Hne. unfold bfs_path. rewrite bool_decide_eq_false_2 by done.
  destruct start as [x y]. unfold bfs_fuel. cbn [bfs_loop].
  assert (in_grid rows cols (x + 0, y + 1) = false) as H1
    by (apply (Hiso (0, 1)); set_solver).
  assert (in_grid rows cols (x + 0, y + -1) = false) as H2
    by (apply (Hiso (0, -1)); set_solver).
  assert (in_grid rows cols (x + 1, y + 0) = false) as H3
    by (apply (Hiso (1, 0)); set_solver).
  assert (in_grid rows cols (x + -1, y + 0) = false) as H4
    by (apply (Hiso (-1, 0)); set_solver).
  unfold directions. cbn [scan]. rewrite H1, H2, H3, H4. simpl.
  by destruct (Z.to_nat rows * Z.to_nat cols)%nat.
Qed.

(** *** Results of [get_directions_to_product] *)

Lemma lookup_in_grid db grid rows cols positions n t :
  build_store_grid db = Some (grid, rows, cols, positions) ->
  positions !! n = Some t -> in_grid rows cols t = true.
Proof.
  intros Hb Hlook. apply build_store_grid_fill in Hb.
  assert ((fill_grid rows cols (get_all_aisles db)).2 !! n = Some t) as Hfill
    by (by rewrite Hb).
  apply fill_lookup_coords in Hfill as [Hemp|(a & _ & _ & _ & Hgrid)]; [|done].
  simpl in Hemp. by rewrite lookup_empty in Hemp.
Qed.

(** X7.  For a product whose aisle is on the map and an entrance inside
    the grid the directions are found: the path leads from the entrance
    to the aisle's cell by unit steps, the step count is the Manhattan
    distance between the two, and the text is the heading followed by
    the rendered path. *)
Theorem directions_found db product grid rows cols positions n ex ey t :
  build_store_grid db = Some (grid, rows, cols, positions) ->
  config_int db "entrance_x" 0 = Some ex ->
  config_int db "entrance_y" 0 = Some ey ->
  in_grid rows cols (ex, ey) = true ->
  aisle_name product = Some n ->
  positions !! n = Some t ->
  exists p,
    get_directions_to_product db product
    = Some {| found := true;
              directions_text :=
                "Head to **Aisle " +:+ n +:+ "** (" +:+ fmt (section product)
                  +:+ "): " +:+ path_to_directions p;
              path := p;
              target := Some t;
              entrance := (ex, ey);
              steps := Some (manhattan (ex, ey) t) |}
    /\ head p = Some (ex, ey) /\ last p = Some t /\ stepwise p.
Proof.
  intros Hb Hx Hy Hin Hname Hpos.
  pose proof (lookup_in_grid _ _ _ _ _ _ _ Hb Hpos) as Ht.
  destruct (bfs_path_walk grid rows cols (ex, ey) t Hin Ht)
    as (p & Hp & [Hh Hl Hs Hlen]).
  exists p. split; [|done].
  unfold get_directions_to_product.
  rewrite Hb. simpl. rewrite Hx. simpl. rewrite Hy. simpl.
  rewrite Hname. simpl. rewrite Hpos. simpl. rewrite Hp.
  assert (Z.of_nat (length p) - 1 = manhattan (ex, ey) t) as -> by lia.
  done.
Qed.

Lemma directions_found_witness :
  in_grid 6 5 (0, 0) = true
  /\ exists p,
       get_directions_to_product demo_store sugar
       = Some {| found := true;
                 directions_text :=
                   "Head to **Aisle A1** (Grocery): " +:+ path_to_directions p;
                 path := p;
                 target := Some (0, 2);
                 entrance := (0, 0);
                 steps := Some (manhattan (0, 0) (0, 2)) |}
       /\ head p = Some (0, 0) /\ last p = Some (0, 2) /\ stepwise p.
Proof.
  split; [reflexivity|].
  apply (directions_found demo_store sugar
           (fill_grid 6 5 (all_aisles demo_store)).1 6 5
           (fill_grid 6 5 (all_aisles demo_store)).2 "A1" 0 0 (0, 2));
    reflexivity.
Defined.

(** X8.  An entrance with no neighbour inside the grid (two or more
    cells outside it) reaches no aisle: the result is the failure that
    names the aisle, with the aisle's cell as target and an empty
    path. *)
Theorem directions_no_path db product grid rows cols positions n ex ey t :
  build_store_grid db = Some (grid, rows, cols, positions) ->
  config_int db "entrance_x" 0 = Some ex ->
  config_int db "entrance_y" 0 = Some ey ->
  (forall dir, dir ∈ directions -> in_grid rows cols (move (ex, ey) dir) = false) ->
  (ex, ey) <> t ->
  aisle_name product = Some n ->
  positions !! n = Some t ->
  get_directions_to_product db product
  = Some {| found := false;
            directions_text := "Sorry, I couldn't find a path to aisle " +:+ n +:+ ".";
            path := [];
            target := Some t;
            entrance := (ex, ey);
            steps := None |}.
Proof.
  intros Hb Hx Hy Hiso Hne Hname Hpos.
  unfold get_directions_to_product.
  rewrite Hb. simpl. rewrite Hx. simpl. rewrite Hy. simpl.
  rewrite Hname. simpl. rewrite Hpos. simpl.
  by rewrite bfs_path_isolated.
Qed.

(** The demo store with the entrance set far outside its 6 x 5 grid. *)
Definition demo_store_far_entrance : Store :=
  {| store_config :=
       {[ "grid_rows" := "6"; "grid_cols" := "5";
          "entrance_x" := "10"; "entrance_y" := "10" ]};
     all_aisles := all_aisles demo_store;
     all_products := [] |}.

Lemma directions_no_path_witness :
  get_directions_to_product demo_store_far_entrance sugar
  = Some {| found := false;
            directions_text := "Sorry, I couldn't find a path to aisle A1.";
            path := [];
            target := Some (0, 2);
            entrance := (10, 10);
            steps := None |}.
Proof.
  apply (directions_no_path demo_store_far_entrance sugar
           (fill_grid 6 5 (all_aisles demo_store)).1 6 5
           (fill_grid 6 5 (all_aisles demo_store)).2 "A1" 10 10 (0, 2));
    try reflexivity; try done.
  intros dir Hdir. unfold directions in Hdir.
  rewrite !elem_of_cons, elem_of_nil in Hdir.
  destruct Hdir as [->|[->|[->|[->|[]]]]]; reflexivity.
Defined.

End RouteFacts.

(* ===================================================================== *)
(** ** The directions text *)
(* ===================================================================== *)

Module DirectionTextFacts.
Import Database Pathfinding.

(** The runs behind the phrases: a step and how often it is repeated. *)
Fixpoint runs (fuel : nat) (ds : list (Z * Z)) : list ((Z * Z) * nat) :=
  match fuel, ds with
  | S fuel', d :: rest =>
      (d, S (same_run d rest)) :: runs fuel' (drop (same_run d rest) rest)
  | _, _ => []
  end.

(** Writing every run out again. *)
Definition expand (rs : list ((Z * Z) * nat)) : list (Z * Z) :=
  flat_map (fun r => replicate r.2 r.1) rs.

(** Neighbouring runs go in different directions. *)
Fixpoint turning (rs : list ((Z * Z) * nat)) : Prop :=
  match rs with
  | r1 :: (r2 :: _) as rest => r1.1 <> r2.1 /\ turning rest
  | _ => True
  end.

Lemma phrases_runs fuel ds :
  phrases fuel ds = (fun r => phrase r.1 r.2) <$> runs fuel ds.
Proof.
  revert ds. induction fuel as [|fuel IH]; intros [|d rest]; simpl; try done.
  by rewrite IH.
Qed.

Lemma same_run_le d ds : (same_run d ds <= length ds)%nat.
Proof.
  induction ds as [|d' ds IH]; simpl; [lia|]. case_bool_decide; simpl; lia.
Qed.

Lemma same_run_take d ds : take (same_run d ds) ds = replicate (same_run d ds) d.
Proof.
  induction ds as [|d' ds IH]; simpl; [done|].
  case_bool_decide as Heq; simpl; [|done]. by rewrite IH, Heq.
Qed.

Lemma same_run_next d ds : head (drop (same_run d ds) ds) <> Some d.
Proof.
  induction ds as [|d' ds IH]; simpl; [done|].
  case_bool_decide as Heq; simpl; [done|]. congruence.
Qed.

Lemma runs_expand fuel ds : (length ds <= fuel)%nat -> expand (runs fuel ds) = ds.
Proof.
  revert ds. induction fuel as [|fuel IH]; intros [|d rest] Hlen; simpl in *;
    try done; try lia.
  unfold expand in *. simpl. rewrite IH.
  - rewrite <- same_run_take. by rewrite take_drop.
  - rewrite length_drop. lia.
Qed.

Lemma runs_counts fuel ds : Forall (fun r => (1 <= r.2)%nat) (runs fuel ds).
Proof.
  revert ds. induction fuel as [|fuel IH]; intros [|d rest]; simpl; try done.
  constructor; [simpl; lia|apply IH].
Qed.

Lemma runs_head fuel ds r rs : runs fuel ds = r :: rs -> head ds = Some r.1.
Proof. destruct fuel, ds; simpl; try done. by intros [= <- _]. Qed.

Lemma runs_turning fuel ds : turning (runs fuel ds).
Proof.
  revert ds. induction fuel as [|fuel IH]; intros [|d rest]; simpl; try done.
  destruct (runs fuel (drop (same_run d rest) rest)) as [|r rs] eqn:Hruns; [done|].
  split; [|rewrite <- Hruns; apply IH].
  simpl. intros Heq. apply runs_head in Hruns.
  apply (same_run_next d rest). by rewrite Hruns, Heq.
Qed.

Lemma length_deltas path : length (deltas path) = (length path - 1)%nat.
Proof.
  induction path as [|p [|q path] IH]; simpl in *; try done. rewrite IH. lia.
Qed.

(** X9.  The text for a path of two cells or more is the phrases of its
    runs joined by the separator: written out again, the runs give the
    steps of the path one by one; every run counts at least one step,
    and two runs that follow each other differ in direction. *)
Theorem path_to_directions_runs path :
  (2 <= length path)%nat ->
  exists rs,
    path_to_directions path
    = PyStr.join separator ((fun r => phrase r.1 r.2) <$> rs)
    /\ expand rs = deltas path
    /\ Forall (fun r => (1 <= r.2)%nat) rs
    /\ turning rs.
Proof.
  intros Hlen. exists (runs (length path) (deltas path)).
  split; [|split; [|split]].
  - unfold path_to_directions.
    rewrite (proj2 (Nat.ltb_ge (length path) 2) Hlen). by rewrite phrases_runs.
  - apply runs_expand. rewrite length_deltas. lia.
  - apply runs_counts.
  - apply runs_turning.
Qed.

Lemma path_to_directions_runs_witness :
  (2 <= length [(0, 0); (0, 1); (0, 2); (1, 2)])%nat
  /\ exists rs,
       path_to_directions [(0, 0); (0, 1); (0, 2); (1, 2)]
       = PyStr.join separator ((fun r => phrase r.1 r.2) <$> rs)
       /\ expand rs = [(0, 1); (0, 1); (1, 0)]
       /\ Forall (fun r => (1 <= r.2)%nat) rs
       /\ turning rs.
Proof.
  split; [simpl; lia|].
  apply (path_to_directions_runs [(0, 0); (0, 1); (0, 2); (1, 2)]). simpl. lia.
Defined.

Example directions_two_runs :
  path_to_directions [(0, 0); (0, 1); (0, 2); (1, 2)]
  = "Go right for 2 sections" +:+ separator +:+ "Go forward".
Proof. vm_compute. reflexivity. Qed.

End DirectionTextFacts.

(* ===================================================================== *)
(** ** The two tiers of the search *)
(* ===================================================================== *)

Module SearchTierFacts.
Import PyStr PyStrFacts Database Search ScoreFacts ExpandFacts RankFacts.

(** *** The remote matcher's results *)

(** The [i]-th entry is a product of the catalog with score [100 - 5 i]. *)
Definition ranked_from (products : list Product) (results : list Scored) : Prop :=
  forall i r, results !! i = Some r ->
    r.1 ∈ products /\ match_score r = inject_Z (100 - Z.of_nat i * 5).

Lemma add_index_ranked products results idx :
  ranked_from products results ->
  ranked_from products (add_index products results idx).
Proof.
  intros Hres. unfold add_index.
  destruct ((1 <=? idx) && (idx <=? Z.of_nat (length products))); [|done].
  destruct (products !! Z.to_nat (idx - 1)) as [product|] eqn:Hprod; [|done].
  intros i r Hr. apply lookup_app_Some in Hr as [Hr|[Hlen Hr]]; [by apply Hres|].
  apply list_lookup_singleton_Some in Hr as [Hi <-].
  split; [by eapply list_elem_of_lookup_2|].
  unfold match_score, Scored in *. simpl. f_equal. lia.
Qed.

Lemma fold_add_index_ranked products indices results :
  ranked_from products results ->
  ranked_from products (fold_left (add_index products) indices results).
Proof.
  revert results. induction indices as [|idx indices IH]; intros results Hres;
    [done|].
  simpl. by apply IH, add_index_ranked.
Qed.

Lemma fold_add_index_invalid products indices results :
  Forall (fun idx => idx < 1 \/ Z.of_nat (length products) < idx) indices ->
  fold_left (add_index products) indices results = results.
Proof.
  revert results. induction indices as [|idx indices IH]; intros results Hall;
    [done|].
  apply Forall_cons in Hall as [Hidx Hall]. simpl. rewrite IH by done.
  unfold add_index.
  destruct ((1 <=? idx) && (idx <=? Z.of_nat (length products))) eqn:Hvalid;
    [|done].
  apply andb_true_iff in Hvalid as [H1 H2]. lia.
Qed.

Lemma slice_to_lookup {A} (n : Z) (l : list A) i x :
  slice_to n l !! i = Some x -> l !! i = Some x.
Proof.
  unfold slice_to. destruct (0 <=? n); intros Hl;
    apply lookup_take_Some in Hl; tauto.
Qed.

Lemma slice_to_length {A} (n : Z) (l : list A) :
  0 <= n -> Z.of_nat (length (slice_to n l)) <= n.
Proof. intros Hn. rewrite slice_to_take by done. rewrite length_take. lia. Qed.

(** The results are a slice of a list ranked from the catalog. *)
Lemma search_with_llm_inv `{Matcher} query products top_n results :
  search_with_llm query products top_n = Some results ->
  client_available = true
  /\ products <> []
  /\ exists full, results = slice_to top_n full /\ ranked_from products full.
Proof.
  unfold search_with_llm.
  destruct client_available; simpl; [|done].
  case_bool_decide as Hprod; [done|].
  destruct (reply_indices query products) as [indices|]; [|done].
  pose proof (fold_add_index_ranked products indices []) as Hranked.
  destruct (fold_left (add_index products) indices []) as [|r0 full]; [done|].
  intros [= <-]. split; [done|]. split; [done|].
  exists (r0 :: full). split; [done|]. apply Hranked.
  intros j r' Hr'. by rewrite lookup_nil in Hr'.
Qed.

(** X10.  What the remote matcher's tier returns: the client exists and
    the catalog is not empty; for [top_n >= 0] there are at most [top_n]
    results; the result at position [i] is a product of the catalog and
    has the score [100 - 5 i], so the scores fall strictly. *)
Theorem llm_results_ranked `{Matcher} query products top_n results :
  search_with_llm query products top_n = Some results ->
  client_available = true
  /\ products <> []
  /\ (0 <= top_n -> Z.of_nat (length results) <= top_n)
  /\ forall i r, results !! i = Some r ->
       r.1 ∈ products /\ match_score r = inject_Z (100 - Z.of_nat i * 5).
Proof.
  intros Hres.
  apply search_with_llm_inv in Hres as (Hon & Hprod & full & -> & Hranked).
  split; [done|]. split; [done|]. split.
  - apply slice_to_length.
  - intros i r Hr. apply slice_to_lookup in Hr. by apply Hranked.
Qed.

(** A matcher that answers with the indices 2, 9, 1. *)
Definition sample_matcher : Matcher :=
  {| client_available := true;
     reply_indices := fun _ _ => Some [2; 9; 1] |}.

Lemma llm_results_ranked_witness :
  @search_with_llm sample_matcher "tea" [plain_sugar; DirectionsFacts.lamp] 5
  = Some [(DirectionsFacts.lamp, inject_Z 100); (plain_sugar, inject_Z 95)]
  /\ @client_available sample_matcher = true.
Proof.
  assert (@search_with_llm sample_matcher "tea" [plain_sugar; DirectionsFacts.lamp] 5
          = Some [(DirectionsFacts.lamp, inject_Z 100); (plain_sugar, inject_Z 95)])
    as Hres by (vm_compute; reflexivity).
  split; [exact Hres|].
  apply (@llm_results_ranked sample_matcher "tea"
           [plain_sugar; DirectionsFacts.lamp] 5 _ Hres).
Defined.

(** *** Both tiers *)

Section Tiers.
Context `{Rapidfuzz} `{SpellChecker} `{Matcher}.

Lemma fuzzy_empty_catalog query top_n threshold :
  search_products_fuzzy query [] top_n threshold = [].
Proof.
  unfold search_products_fuzzy, slice_to. simpl.
  by destruct (0 <=? top_n); [destruct (Z.to_nat top_n)|].
Qed.

Lemma search_products_cases db query top_n threshold :
  search_products db query top_n threshold
  = search_products_fuzzy query (get_all_products db) top_n threshold
  \/ exists r results,
       search_with_llm query (get_all_products db) top_n = Some (r :: results)
       /\ search_products db query top_n threshold = r :: results.
Proof.
  unfold search_products.
  destruct (get_all_products db) as [|p products] eqn:Hprod.
  - left. by rewrite fuzzy_empty_catalog.
  - destruct (search_with_llm query (p :: products) top_n) as [[|r results]|];
      [by left| |by left].
    right. by exists r, results.
Qed.

End Tiers.

(** X11.  Whichever tier answers, for [top_n >= 0] [search_products]
    returns at most [top_n] results and every one of them is a product
    of the catalog. *)
Theorem search_products_from_catalog `{Rapidfuzz} `{SpellChecker} `{Matcher}
    db query top_n threshold :
  0 <= top_n ->
  Z.of_nat (length (search_products db query top_n threshold)) <= top_n
  /\ Forall (fun r => r.1 ∈ get_all_products db)
            (search_products db query top_n threshold).
Proof.
  intros Hn.
  destruct (search_products_cases db query top_n threshold)
    as [->|(r & results & Hllm & ->)].
  - split.
    + unfold search_products_fuzzy. by apply slice_to_length.
    + apply Forall_forall. intros r Hr.
      by apply elem_of_search_products_fuzzy in Hr as (Hin & _ & _).
  - apply search_with_llm_inv in Hllm as (_ & _ & full & Hfull & Hranked).
    rewrite Hfull. split; [by apply slice_to_length|].
    apply Forall_forall. intros r' Hr'.
    apply list_elem_of_lookup in Hr' as [i Hi].
    apply slice_to_lookup in Hi. by apply (Hranked i).
Qed.

Lemma search_products_from_catalog_witness :
  0 <= 1
  /\ Z.of_nat (length (@search_products exact_rapidfuzz knows_all sample_matcher
                         EmptyQueryFacts.sugar_store "sugar" 1 50)) <= 1.
Proof.
  split; [lia|].
  apply (@search_products_from_catalog exact_rapidfuzz knows_all sample_matcher
           EmptyQueryFacts.sugar_store "sugar" 1 50). lia.
Defined.

(** X12.  The search is the fuzzy search alone whenever the remote
    matcher has no client, gives no index list, or lists no index
    between 1 and the size of the catalog. *)
Theorem search_products_falls_back `{Rapidfuzz} `{SpellChecker} `{Matcher}
    db query top_n threshold :
  client_available = false
  \/ reply_indices query (get_all_products db) = None
  \/ (exists indices,
        reply_indices query (get_all_products db) = Some indices
        /\ Forall (fun idx => idx < 1
                              \/ Z.of_nat (length (get_all_products db)) < idx)
                  indices) ->
  search_products db query top_n threshold
  = search_products_fuzzy query (get_all_products db) top_n threshold.
Proof.
  intros Hcase.
  destruct (search_products_cases db query top_n threshold)
    as [Hfuzzy|(r & results & Hllm & _)]; [done|].
  exfalso. unfold search_with_llm in Hllm.
  destruct client_available; simpl in Hllm; [|done].
  case_bool_decide; [done|].
  destruct Hcase as [Hoff|[Hnone|(indices & Hsome & Hinvalid)]]; [done| |].
  - by rewrite Hnone in Hllm.
  - rewrite Hsome in Hllm. by rewrite fold_add_index_invalid in Hllm.
Qed.

(** A matcher whose only index is beyond the catalog. *)
Definition stray_matcher : Matcher :=
  {| client_available := true;
     reply_indices := fun _ _ => Some [7] |}.

Lemma search_products_falls_back_witness :
  @search_products exact_rapidfuzz knows_all stray_matcher
    EmptyQueryFacts.sugar_store "sugar" 5 50
  = @search_products_fuzzy exact_rapidfuzz knows_all "sugar" [plain_sugar] 5 50.
Proof.
  apply (@search_products_falls_back exact_rapidfuzz knows_all stray_matcher
           EmptyQueryFacts.sugar_store "sugar" 5 50).
  right. right. exists [7]. split; [reflexivity|].
  constructor; [right; simpl; lia|constructor].
Defined.

End SearchTierFacts.

(* ===================================================================== *)
(** ** The fuzzy ranking: ties, keywords, intents, thresholds *)
(* ===================================================================== *)

Module RankingMoreFacts.
Import PyStr PyStrFacts Database Search ScoreFacts ExpandFacts RankFacts
       SearchTierFacts.

(** *** Ties keep the order of the catalog *)

(** X13.  Equal scores keep the order of the catalog: for [top_n >= 0]
    and any score [s], the results with that score are, in their order,
    the first of the scored products (listed in catalog order) that have
    it. *)
Theorem fuzzy_ties_keep_catalog_order `{Rapidfuzz} `{SpellChecker}
    query products top_n threshold s :
  0 <= top_n ->
  filter (scored_at s) (search_products_fuzzy query products top_n threshold)
  `prefix_of`
  filter (scored_at s)
    (score_products (expand_query (correct_query query)) threshold products).
Proof.
  intros Hn. unfold search_products_fuzzy. rewrite slice_to_take by done.
  rewrite <- (sort_desc_stable s (score_products _ _ _)).
  apply filter_take_prefix.
Qed.

Definition plain_salt : Product :=
  {| name := "Salt"; brand := ""; category := ""; keywords := "";
     variants := []; price := 20; quantity := "1 kg"; shelf := 1;
     aisle_name := Some "A1"; section := Some "Grocery" |}.

Lemma fuzzy_ties_keep_catalog_order_witness :
  0 <= 2
  /\ @search_products_fuzzy one_third knows_all "tea" [plain_sugar; plain_salt] 2 0
     = [(plain_sugar, (333 # 10)%Q); (plain_salt, (333 # 10)%Q)]
  /\ filter (scored_at (333 # 10))
       (@search_products_fuzzy one_third knows_all "tea" [plain_sugar; plain_salt] 2 0)
     `prefix_of`
     filter (scored_at (333 # 10))
       (@score_products one_third (expand_query (@correct_query knows_all "tea")) 0
          [plain_sugar; plain_salt]).
Proof.
  split; [lia|]. split; [vm_compute; reflexivity|].
  apply (@fuzzy_ties_keep_catalog_order one_third knows_all). lia.
Defined.

(** *** Products that are kept *)

Section Kept.
Context `{Rapidfuzz} `{SpellChecker}.

Lemma length_score_products terms threshold products :
  (length (score_products terms threshold products) <= length products)%nat.
Proof.
  unfold score_products. induction products as [|p products IH]; simpl; [lia|].
  rewrite length_app. unfold Scored in *.
  destruct (Qle_bool threshold (best_score terms p)); simpl; lia.
Qed.

(** With room for the whole catalog, a product whose best score passes
    the threshold is among the results. *)
Lemma kept_in_results query products top_n threshold p :
  p ∈ products ->
  (threshold <= best_score (expand_query (correct_query query)) p)%Q ->
  Z.of_nat (length products) <= top_n ->
  (p, round1 (best_score (expand_query (correct_query query)) p))
    ∈ search_products_fuzzy query products top_n threshold.
Proof.
  intros Hp Hle Hn. unfold search_products_fuzzy.
  rewrite slice_to_take by lia. rewrite take_ge.
  - rewrite sort_desc_perm. by apply elem_of_score_products.
  - rewrite sort_desc_perm.
    pose proof (length_score_products (expand_query (correct_query query))
                  threshold products). lia.
Qed.

Lemma term_score_keyword_75 term name brand category keywords :
  contains term keywords = true ->
  (75 <= term_score term name brand category keywords)%Q.
Proof.
  intros Hkw. unfold term_score.
  pose proof (pymax_ge_r (weighted_sum term name brand category keywords) 95).
  pose proof (pymax_ge_r (weighted_sum term name brand category keywords) 92).
  pose proof (pymax_ge_r (weighted_sum term name brand category keywords) 75).
  destruct (contains term name); [lra|].
  destruct (startswith name term || endswith name term); [lra|].
  rewrite Hkw. lra.
Qed.

End Kept.

(** X14.  A product whose keyword tags contain the corrected query has
    a score of at least 75, and with a threshold of at most 75 and room
    for the whole catalog it is among the results. *)
Theorem keyword_match_found `{Rapidfuzz} `{SpellChecker}
    query products top_n threshold p :
  contains (lower (correct_query query)) (lower (keywords p)) = true ->
  p ∈ products ->
  (threshold <= 75)%Q ->
  Z.of_nat (length products) <= top_n ->
  exists s, (p, s) ∈ search_products_fuzzy query products top_n threshold
            /\ (75 <= s)%Q.
Proof.
  intros Hkw Hp Hthr Hn.
  assert (75 <= best_score (expand_query (correct_query query)) p)%Q as Hbest.
  { eapply Qle_trans; [by apply term_score_keyword_75|].
    apply best_score_ge, expand_query_lower. }
  exists (round1 (best_score (expand_query (correct_query query)) p)). split.
  - apply kept_in_results; [done|lra|done].
  - assert (750 # 10 <= round1 (best_score (expand_query (correct_query query)) p))%Q
      by (apply round1_ge; lra). lra.
Qed.

Definition tagged_sugar : Product :=
  {| name := "Sugar"; brand := ""; category := ""; keywords := "cheeni,sweet";
     variants := []; price := 45; quantity := "1 kg"; shelf := 2;
     aisle_name := Some "A1"; section := Some "Grocery" |}.

Lemma keyword_match_found_witness :
  contains (lower (@correct_query knows_all "cheeni")) (lower (keywords tagged_sugar))
  = true
  /\ exists s, (tagged_sugar, s)
                 ∈ @search_products_fuzzy exact_rapidfuzz knows_all
                     "cheeni" [tagged_sugar] 5 50
               /\ (75 <= s)%Q.
Proof.
  split; [reflexivity|].
  apply (@keyword_match_found exact_rapidfuzz knows_all "cheeni" [tagged_sugar] 5 50);
    [reflexivity|set_solver|unfold Qle; simpl; lia|simpl; lia].
Defined.

(** X15.  When the corrected query mentions an intent of the intent map
    and the name of a product contains one of that intent's synonyms,
    the product scores at least 95 although the query does not name it;
    with a threshold of at most 95 and room for the whole catalog it is
    among the results. *)
Theorem intent_synonym_found `{Rapidfuzz} `{SpellChecker}
    query products top_n threshold intent synonyms synonym p :
  (intent, synonyms) ∈ INTENT_MAP ->
  contains intent (lower (correct_query query)) = true ->
  synonym ∈ synonyms ->
  contains synonym (lower (name p)) = true ->
  p ∈ products ->
  (threshold <= 95)%Q ->
  Z.of_nat (length products) <= top_n ->
  exists s, (p, s) ∈ search_products_fuzzy query products top_n threshold
            /\ (95 <= s)%Q.
Proof.
  intros Hintent Hq Hsyn Hname Hp Hthr Hn.
  assert (synonym ∈ expand_query (correct_query query)) as Hterm.
  { unfold expand_query. apply elem_of_remove_dups.
    by apply gather_synonyms with intent synonyms. }
  assert (95 <= best_score (expand_query (correct_query query)) p)%Q as Hbest.
  { eapply Qle_trans; [by apply term_score_substring_95|].
    by apply best_score_ge. }
  exists (round1 (best_score (expand_query (correct_query query)) p)). split.
  - apply kept_in_results; [done|lra|done].
  - by apply round1_ge_95.
Qed.

Definition paracetamol : Product :=
  {| name := "Paracetamol 500mg"; brand := ""; category := ""; keywords := "";
     variants := []; price := 30; quantity := "10 tablets"; shelf := 3;
     aisle_name := Some "A1"; section := Some "Pharmacy" |}.

Lemma intent_synonym_found_witness :
  contains "cold" (lower (@correct_query knows_all "something for cold")) = true
  /\ contains "paracetamol" (lower (name paracetamol)) = true
  /\ exists s, (paracetamol, s)
                 ∈ @search_products_fuzzy exact_rapidfuzz knows_all
                     "something for cold" [paracetamol] 5 50
               /\ (95 <= s)%Q.
Proof.
  split; [reflexivity|]. split; [reflexivity|].
  apply (@intent_synonym_found exact_rapidfuzz knows_all
           "something for cold" [paracetamol] 5 50
           "cold" ["cold"; "flu"; "fever"; "cough"; "sardi"; "khansi"; "bukhar"; "paracetamol"]
           "paracetamol" paracetamol);
    [unfold INTENT_MAP; set_solver|reflexivity|set_solver|reflexivity
    |set_solver|unfold Qle; simpl; lia|simpl; lia].
Defined.

(** X16.  No product can pass a threshold above 100: the fuzzy search
    then returns nothing. *)
Theorem threshold_above_100_empty `{Rapidfuzz} `{SpellChecker}
    query products top_n threshold :
  (100 < threshold)%Q ->
  search_products_fuzzy query products top_n threshold = [].
Proof.
  intros Hthr. unfold search_products_fuzzy.
  assert (score_products (expand_query (correct_query query)) threshold products = [])
    as ->.
  { unfold score_products. induction products as [|p products IH]; [done|].
    simpl. rewrite IH.
    pose proof (best_score_range (expand_query (correct_query query)) p) as [_ Hhi].
    destruct (Qle_bool threshold (best_score (expand_query (correct_query query)) p))
      eqn:Hle; [|done].
    apply Qle_bool_iff in Hle. lra. }
  unfold slice_to. simpl. by destruct (0 <=? top_n); [destruct (Z.to_nat top_n)|].
Qed.

Lemma threshold_above_100_empty_witness :
  (100 < 101)%Q
  /\ @search_products_fuzzy exact_rapidfuzz knows_all "sugar" [plain_sugar] 5 101 = [].
Proof.
  split; [unfold Qlt; simpl; lia|].
  apply (@threshold_above_100_empty exact_rapidfuzz knows_all). unfold Qlt. simpl. lia.
Defined.

(** *** Spell correction *)

(** X17.  Words known to the product vocabulary or to the English
    dictionary are never changed: a query made of such words comes back
    lower-cased, its words joined by single spaces. *)
Theorem correct_query_known_words `{SpellChecker} query :
  Forall (fun word => spell_unknown word = false \/ english_unknown word = false)
         (split_ws (lower query)) ->
  correct_query query = join " " (split_ws (lower query)).
Proof.
  intros Hknown. unfold correct_query. f_equal.
  induction Hknown as [|word words Hword _ IH]; [done|].
  rewrite fmap_cons, IH. f_equal. unfold correct_word.
  destruct Hword as [-> | ->]; [done|]. by rewrite andb_false_r.
Qed.

(** A checker that knows no word and suggests "rice" for each. *)
Definition rice_checker : SpellChecker :=
  {| spell_unknown := fun _ => true;
     english_unknown := fun w => bool_decide (w <> "basmati");
     spell_correction := fun _ => Some "rice" |}.

Lemma correct_query_known_words_witness :
  @correct_query rice_checker "  Basmati  " = "basmati".
Proof.
  apply (@correct_query_known_words rice_checker "  Basmati  ").
  change (split_ws (lower "  Basmati  ")) with ["basmati"].
  constructor; [right; reflexivity|constructor].
Defined.

Example correct_query_unknown_word :
  @correct_query rice_checker "Basmati ryce" = "basmati rice".
Proof. vm_compute. reflexivity. Qed.

End RankingMoreFacts.

(* ===================================================================== *)
(** ** The reply of the assistant *)
(* ===================================================================== *)

Module ReplyFacts.
Import PyStr PyStrFacts Database Pathfinding Search Pipeline
       BfsTermination RankFacts SearchTierFacts PipelineFacts.

(** X18.  The fallback reply is never empty, and a conversation whose
    last message mentions neither the found-products context nor the
    no-match context (or that has no message at all) is answered with
    one of the three greetings. *)
Theorem fallback_reply_shape pick messages :
  generate_fallback_response pick messages <> ""
  /\ (contains "matching products from the store inventory"
        (default "" (content <$> last messages)) = false ->
      contains "No matching products found"
        (default "" (content <$> last messages)) = false ->
      generate_fallback_response pick messages ∈ generic).
Proof.
  split.
  - unfold generate_fallback_response.
    destruct (_ && _); [apply found_response_nonempty|].
    destruct (contains _ _);
      [apply choice_no_match_nonempty|apply choice_generic_nonempty].
  - intros Hfound Hnone. unfold generate_fallback_response.
    rewrite Hfound, Hnone. simpl. by apply choice_elem.
Qed.

Lemma fallback_reply_shape_witness :
  generate_fallback_response 2 [{| role := "user"; content := "hello" |}]
  = "Welcome! Just tell me what you're looking for."
  /\ generate_fallback_response 2 [{| role := "user"; content := "hello" |}] ∈ generic.
Proof.
  split; [vm_compute; reflexivity|].
  apply (fallback_reply_shape 2 [{| role := "user"; content := "hello" |}]);
    reflexivity.
Defined.

End ReplyFacts.

(* ===================================================================== *)
(** ** Settings: what is saved is what the navigator reads *)
(* ===================================================================== *)

Module SettingsFacts.
Import PyStr Database Pathfinding Settings.

(** *** Printing a number and reading it back *)

Lemma digits_value_of_uint d (acc : nat) :
  digits_value (Z.of_nat acc) (NilEmpty.string_of_uint d)
  = Some (Z.of_nat (Nat.of_uint_acc d acc)).
Proof.
  revert acc. induction d as [|d IH|d IH|d IH|d IH|d IH|d IH|d IH|d IH|d IH|d IH];
    intros acc; [done|..].
  all: cbn [NilEmpty.string_of_uint digits_value Nat.of_uint_acc].
  all: change (is_digit _) with true; cbn iota.
  all: rewrite <- IH; f_equal; rewrite Nat.tail_mul_spec.
  all: match goal with
       | |- context [Z.of_nat (nat_of_ascii ?c - 48)] =>
           let k := eval vm_compute in (nat_of_ascii c - 48)%nat in
           change (nat_of_ascii c - 48)%nat with k
       end.
  all: lia.
Qed.

(** The characters of a printed number are digits, none is white space. *)
Fixpoint all_digits (s : string) : Prop :=
  match s with
  | EmptyString => True
  | String c s' => is_digit c = true /\ all_digits s'
  end.

Lemma string_of_uint_digits d : all_digits (NilEmpty.string_of_uint d).
Proof. induction d; simpl; try done; by split. Qed.

Lemma digit_not_space c : is_digit c = true -> is_space c = false.
Proof.
  unfold is_digit, is_space. intros Hd.
  apply andb_true_iff in Hd as [H1 H2].
  apply Nat.leb_le in H1, H2.
  apply orb_false_iff. split; apply andb_false_iff.
  - right. apply Nat.leb_gt. lia.
  - right. apply Nat.leb_gt. lia.
Qed.

Lemma rstrip_digits s : all_digits s -> rstrip s = s.
Proof.
  induction s as [|c s IH]; [done|]. intros [Hc Hs]. simpl.
  rewrite (IH Hs). rewrite (digit_not_space c Hc). by destruct s.
Qed.

Lemma strip_digits s : all_digits s -> strip s = s.
Proof.
  intros Hs. unfold strip. destruct s as [|c s]; [done|].
  simpl lstrip. destruct Hs as [Hc Hs]. rewrite (digit_not_space c Hc).
  by apply rstrip_digits.
Qed.

Lemma of_nat_digits n : all_digits (of_nat n) /\ of_nat n <> "".
Proof.
  unfold of_nat, NilZero.string_of_uint.
  destruct (Nat.to_uint n) as [|u|u|u|u|u|u|u|u|u|u]; [by repeat split|..].
  all: split; [|done].
  all: match goal with
       | |- all_digits (NilEmpty.string_of_uint ?d) => apply (string_of_uint_digits d)
       end.
Qed.

Lemma unsigned_value_of_nat n : unsigned_value (of_nat n) = Some (Z.of_nat n).
Proof.
  destruct (of_nat_digits n) as [_ Hne].
  unfold unsigned_value. destruct (of_nat n) as [|c s] eqn:Hs; [done|].
  rewrite <- Hs. unfold of_nat, NilZero.string_of_uint.
  pose proof (DecimalNat.Unsigned.of_to n) as Hback. unfold Nat.of_uint in Hback.
  destruct (Nat.to_uint n) eqn:Hn;
    try (rewrite <- Hn at 1; rewrite (digits_value_of_uint _ 0), Hn; by rewrite Hback).
  simpl in Hback. by subst n.
Qed.

Lemma int_digits s : all_digits s -> int s = unsigned_value s.
Proof.
  intros Hs. unfold int. rewrite strip_digits by done.
  destruct s as [|c s]; [done|]. destruct Hs as [Hc _].
  destruct c as [[] [] [] [] [] [] [] []]; try done.
Qed.

(** [int(str(z))] is [z]. *)
Lemma int_of_Z z : int (of_Z z) = Some z.
Proof.
  unfold of_Z. destruct (Z.ltb_spec z 0) as [Hneg|Hpos].
  - destruct (of_nat_digits (Z.to_nat (- z))) as [Hd Hne].
    unfold int.
    assert (strip ("-" +:+ of_nat (Z.to_nat (- z)))
            = String "-" (of_nat (Z.to_nat (- z)))) as ->.
    { unfold strip.
      change ("-" +:+ of_nat (Z.to_nat (- z)))
        with (String "-" (of_nat (Z.to_nat (- z)))).
      simpl lstrip. simpl rstrip. rewrite rstrip_digits by done.
      by destruct (of_nat (Z.to_nat (- z))). }
    rewrite unsigned_value_of_nat. simpl. f_equal. lia.
  - destruct (of_nat_digits (Z.to_nat z)) as [Hd _].
    rewrite int_digits by done. rewrite unsigned_value_of_nat. f_equal. lia.
Qed.

Lemma of_Z_nonempty z : of_Z z <> "".
Proof.
  unfold of_Z. destruct (z <? 0); [done|]. apply of_nat_digits.
Qed.

(** *** Settings *)

Lemma config_int_set_other db key key' value default :
  key <> key' ->
  config_int (set_config db key value) key' default = config_int db key' default.
Proof.
  intros Hne. unfold config_int, get_config, set_config. simpl.
  by rewrite lookup_insert_ne.
Qed.

Lemma config_int_set_same db key z default :
  config_int (set_config db key (IntValue z)) key default = Some z.
Proof.
  unfold config_int, get_config, set_config. simpl.
  rewrite lookup_insert_eq. simpl.
  pose proof (of_Z_nonempty z) as Hne. pose proof (int_of_Z z) as Hint.
  by destruct (of_Z z).
Qed.

(** X20.  A number written with [set_config] is what [int(get_config(.))]
    reads back (the default is not used, not even for 0), and the other
    settings read as before. *)
Theorem set_config_read_back db key z :
  (forall default, config_int (set_config db key (IntValue z)) key default = Some z)
  /\ (forall key' value default, key <> key' ->
        config_int (set_config db key value) key' default
        = config_int db key' default)
  /\ get_config (set_config db key (IntValue z)) key = Some (of_Z z).
Proof.
  split; [|split].
  - intros default. apply config_int_set_same.
  - intros key' value default Hne. by apply config_int_set_other.
  - unfold get_config, set_config. simpl. by rewrite lookup_insert_eq.
Qed.

Lemma set_config_read_back_witness :
  "grid_rows" <> "grid_cols"
  /\ config_int (set_config DirectionsFacts.demo_store "grid_rows" (IntValue 0))
       "grid_rows" 6 = Some 0
  /\ config_int (set_config DirectionsFacts.demo_store "grid_rows" (IntValue 0))
       "grid_cols" 5 = Some 5.
Proof.
  destruct (set_config_read_back DirectionsFacts.demo_store "grid_rows" 0)
    as (Hsame & Hother & _).
  split; [done|]. split; [apply Hsame|].
  rewrite (Hother "grid_cols" (IntValue 0) 5); [reflexivity|done].
Defined.

End SettingsFacts.

(* ===================================================================== *)
(** ** The reply when products were found *)
(* ===================================================================== *)

Module FoundReplyFacts.
Import PyStr PyStrFacts Database Pathfinding Search Pipeline PipelineFacts.

(** *** Texts *)

Lemma append_assoc a b c : (a +:+ b) +:+ c = a +:+ (b +:+ c).
Proof.
  induction a as [|x a IH]; [done|].
  change (String x ((a +:+ b) +:+ c) = String x (a +:+ (b +:+ c))).
  by rewrite IH.
Qed.

Lemma string_of_list_ascii_app l l' :
  string_of_list_ascii (l ++ l') = string_of_list_ascii l +:+ string_of_list_ascii l'.
Proof.
  induction l as [|x l IH]; [done|].
  change (String x (string_of_list_ascii (l ++ l'))
          = String x (string_of_list_ascii l +:+ string_of_list_ascii l')).
  by rewrite IH.
Qed.

Lemma startswith_app t v : startswith (t +:+ v) t = true.
Proof. apply startswith_spec. by exists v. Qed.

Lemma contains_app_l t a b : contains t a = true -> contains t (a +:+ b) = true.
Proof.
  rewrite !contains_spec. intros (u & v & ->). exists u, (v +:+ b).
  by rewrite !append_assoc.
Qed.

Lemma contains_app_r t a b : contains t b = true -> contains t (a +:+ b) = true.
Proof.
  rewrite !contains_spec. intros (u & v & ->). exists (a +:+ u), v.
  by rewrite !append_assoc.
Qed.

Lemma join_cons sep p q rest :
  join sep (p :: q :: rest) = p +:+ sep +:+ join sep (q :: rest).
Proof. reflexivity. Qed.

Lemma contains_join t sep parts x :
  x ∈ parts -> contains t x = true -> contains t (join sep parts) = true.
Proof.
  induction parts as [|p [|q rest] IH]; intros Hin Hx.
  - by apply elem_of_nil in Hin.
  - apply list_elem_of_singleton in Hin as ->. done.
  - rewrite join_cons. apply elem_of_cons in Hin as [->|Hin].
    + by apply contains_app_l.
    + apply contains_app_r, contains_app_r. by apply IH.
Qed.

(** *** A product bullet at the start of a line *)

(** After some line break the text goes on with a product bullet. *)
Definition has_bullet (msg : string) : Prop :=
  exists u w, msg = u +:+ nl +:+ "- **" +:+ w.

Lemma has_bullet_app_l a b : has_bullet a -> has_bullet (a +:+ b).
Proof.
  intros (u & w & ->). exists u, (w +:+ b). by rewrite !append_assoc.
Qed.

Lemma has_bullet_app_r a b : has_bullet b -> has_bullet (a +:+ b).
Proof.
  intros (u & w & ->). exists (a +:+ u), w. by rewrite !append_assoc.
Qed.

Lemma has_bullet_join sep parts x :
  x ∈ parts -> has_bullet x -> has_bullet (join sep parts).
Proof.
  induction parts as [|p [|q rest] IH]; intros Hin Hx.
  - by apply elem_of_nil in Hin.
  - apply list_elem_of_singleton in Hin as ->. done.
  - rewrite join_cons. apply elem_of_cons in Hin as [->|Hin].
    + by apply has_bullet_app_l.
    + apply has_bullet_app_r, has_bullet_app_r. by apply IH.
Qed.

Lemma split_lines_aux_head cur w :
  exists x rest,
    split_lines_aux cur w = (string_of_list_ascii (rev cur) +:+ x) :: rest.
Proof.
  revert cur. induction w as [|c w IH]; intros cur; simpl.
  - exists "", []. by rewrite append_empty_r.
  - destruct (Ascii.eqb c (ascii_of_nat 10)).
    + exists "", (split_lines_aux [] w). by rewrite append_empty_r.
    + destruct (IH (c :: cur)) as (x & rest & ->).
      exists (String c x), rest. f_equal. simpl rev.
      rewrite string_of_list_ascii_app, append_assoc. done.
Qed.

Lemma split_lines_aux_after_break cur u v :
  exists l, l ∈ split_lines_aux cur (u +:+ nl +:+ v)
            /\ head (split_lines_aux [] v) = Some l.
Proof.
  revert cur. induction u as [|c u IH]; intros cur.
  - change ("" +:+ nl +:+ v) with (String (ascii_of_nat 10) v). simpl.
    destruct (split_lines_aux_head [] v) as (x & rest & Hv). rewrite Hv.
    eexists. split; [|reflexivity]. set_solver.
  - change (String c u +:+ nl +:+ v) with (String c (u +:+ nl +:+ v)). simpl.
    destruct (Ascii.eqb c (ascii_of_nat 10)).
    + destruct (IH []) as (l & Hl & Hhead). exists l. split; [set_solver|done].
    + apply IH.
Qed.

Lemma rstrip_keep c s :
  is_space c = false \/ rstrip s <> "" -> rstrip (String c s) = String c (rstrip s).
Proof.
  intros Hkeep. simpl. destruct (rstrip s) as [|d r] eqn:Hr; [|done].
  destruct Hkeep as [->|Hne]; done.
Qed.

Lemma strip_bullet x : exists y, strip ("- **" +:+ x) = "- **" +:+ y.
Proof.
  exists (rstrip x). unfold strip.
  change ("- **" +:+ x) with (String "-" (String " " (String "*" (String "*" x)))).
  simpl lstrip.
  assert (rstrip (String "*" x) = String "*" (rstrip x)) as H1
    by (apply rstrip_keep; by left).
  assert (rstrip (String "*" (String "*" x)) = String "*" (String "*" (rstrip x)))
    as H2 by (rewrite rstrip_keep, H1; [done|by left]).
  assert (rstrip (String " " (String "*" (String "*" x)))
          = String " " (String "*" (String "*" (rstrip x)))) as H3
    by (rewrite rstrip_keep, H2; [done|right; by rewrite H2]).
  rewrite rstrip_keep, H3; [done|by left].
Qed.

(** A text with a bullet has a line that, stripped, starts with it. *)
Lemma has_bullet_line msg :
  has_bullet msg ->
  exists l, l ∈ split_lines msg /\ startswith (strip l) "- **" = true.
Proof.
  intros (u & w & ->). unfold split_lines.
  destruct (split_lines_aux_after_break [] u ("- **" +:+ w)) as (l & Hl & Hhead).
  exists l. split; [done|].
  change ("- **" +:+ w) with (String "-" (String " " (String "*" (String "*" w))))
    in Hhead.
  simpl in Hhead.
  destruct (split_lines_aux_head ["*"; "*"; " "; "-"]%char w) as (x & rest & Hw).
  rewrite Hw in Hhead. simpl in Hhead. injection Hhead as <-.
  change (String "-" (String " " (String "*" (String "*" ("" +:+ x)))))
    with ("- **" +:+ x).
  destruct (strip_bullet x) as (y & ->). apply startswith_app.
Qed.

(** *** The context of found products *)

Definition starts_bullet (parts : list string) : Prop :=
  exists x others, parts = ("- **" +:+ x) :: others.

Lemma append_last_snoc l p suffix : append_last (l ++ [p]) suffix = l ++ [p +:+ suffix].
Proof. unfold append_last. by rewrite reverse_snoc, reverse_involutive. Qed.

Lemma starts_bullet_append_last parts suffix :
  starts_bullet parts -> starts_bullet (append_last parts suffix).
Proof.
  intros (x & others & ->).
  destruct others as [|o others _] using rev_ind.
  - change ["- **" +:+ x] with ([] ++ ["- **" +:+ x]).
    rewrite append_last_snoc. exists (x +:+ suffix), []. simpl.
    by rewrite append_assoc.
  - rewrite app_comm_cons, append_last_snoc. by eexists _, _.
Qed.

Lemma starts_bullet_app parts more : starts_bullet parts -> starts_bullet (parts ++ more).
Proof. intros (x & others & ->). by eexists _, _. Qed.

Lemma starts_bullet_join parts :
  starts_bullet parts -> exists w, join nl parts = "- **" +:+ w.
Proof.
  intros (x & [|q rest] & ->).
  - by exists x.
  - rewrite join_cons, append_assoc. by eexists.
Qed.

Lemma format_product_bullet product :
  exists w, format_product_for_llm product = "- **" +:+ w.
Proof.
  unfold format_product_for_llm. apply starts_bullet_join.
  assert (starts_bullet ["- **" +:+ name product +:+ "**"]) as H0
    by (by eexists _, _).
  repeat match goal with
         | |- starts_bullet (if ?c then _ else _) => destruct c
         | |- starts_bullet (match ?l with [] => _ | _ :: _ => _ end) => destruct l
         | |- starts_bullet (append_last _ _) => apply starts_bullet_append_last
         | |- starts_bullet (_ ++ _) => apply starts_bullet_app
         end; exact H0.
Qed.

Definition found_marker : string := "matching products from the store inventory".

Lemma format_results_found r results :
  contains found_marker (format_search_results_for_llm (r :: results)) = true
  /\ has_bullet (format_search_results_for_llm (r :: results)).
Proof.
  unfold format_search_results_for_llm. simpl flat_map. split.
  - apply contains_join
      with ("Here are the matching products from the store inventory:" +:+ nl);
      [set_solver|reflexivity].
  - rewrite join_cons. destruct (format_product_bullet r.1) as (w & Hw).
    rewrite join_cons, Hw.
    exists ("Here are the matching products from the store inventory:" +:+ nl), 
           (w +:+ nl +:+ join nl ("" :: flat_map (fun r => [format_product_for_llm r.1; ""]) results)).
    by rewrite !append_assoc.
Qed.

Lemma build_context_found user_query r results directions_info :
  contains found_marker
    (build_context_prompt user_query (r :: results) directions_info) = true
  /\ has_bullet (build_context_prompt user_query (r :: results) directions_info).
Proof.
  destruct (format_results_found r results) as [Hmark Hbullet].
  unfold build_context_prompt.
  destruct directions_info as [d|]; [destruct (found d)|]; simpl app.
  - split; [eapply contains_join|eapply has_bullet_join]; try done; set_solver.
  - done.
  - done.
Qed.

Lemma augmented_query_found user_query context :
  contains found_marker context = true -> has_bullet context ->
  contains found_marker (augmented_query user_query context) = true
  /\ has_bullet (augmented_query user_query context).
Proof.
  intros Hmark Hbullet. unfold augmented_query.
  split; [eapply contains_join|eapply has_bullet_join]; try done; set_solver.
Qed.

(** *** The reply *)

Lemma found_response_prefix lines :
  startswith (found_response lines) "📍 Found at **" = true
  \/ startswith (found_response lines) "Here's what I found." = true.
Proof.
  unfold found_response.
  repeat case_bool_decide;
    first [ right; reflexivity
          | right; apply startswith_app
          | left; apply startswith_app
          | left; rewrite append_assoc; apply startswith_app ].
Qed.

Lemma fallback_found pick messages :
  contains found_marker (default "" (content <$> last messages)) = true ->
  has_bullet (default "" (content <$> last messages)) ->
  generate_fallback_response pick messages
  = found_response (split_lines (default "" (content <$> last messages))).
Proof.
  intros Hmark Hbullet. unfold generate_fallback_response.
  fold found_marker. rewrite Hmark.
  destruct (has_bullet_line _ Hbullet) as (l & Hl & Hstart).
  rewrite bool_decide_eq_false_2; [done|].
  intros Hnil.
  assert (strip l ∈ filter (fun l => startswith l "- **" = true)
                      (strip <$> split_lines (default "" (content <$> last messages))))
    as Hin.
  { apply list_elem_of_filter. split; [done|]. by apply list_elem_of_fmap_2. }
  rewrite Hnil in Hin. by apply elem_of_nil in Hin.
Qed.

Lemma last_of_messages {A} (a x : A) (l : list A) : last (a :: l ++ [x]) = Some x.
Proof. rewrite app_comm_cons. apply last_snoc. Qed.

(** X22.  Whenever the search finds a product, the reply of [chat] is
    the text for found products: it begins with "Found at" and the
    location, or is "Here's what I found." (followed by the directions
    when there are some), never an apology or a greeting. *)
Theorem chat_found_reply `{Rapidfuzz} `{SpellChecker} `{Matcher}
    db pick user_query history result :
  chat db pick user_query history = Some result ->
  products result <> [] ->
  startswith (response result) "📍 Found at **" = true
  \/ startswith (response result) "Here's what I found." = true.
Proof.
  unfold chat. intros Hchat Hfound.
  destruct (search_products db user_query 3 50) as [|top rest] eqn:Hsearch.
  - simpl in Hchat. injection Hchat as <-. done.
  - destruct (get_directions_to_product db top.1) as [d|]; [|done].
    simpl in Hchat. injection Hchat as <-. simpl.
    unfold generate_llm_response.
    destruct (build_context_found user_query top rest (Some d)) as [Hmark Hbullet].
    destruct (augmented_query_found user_query _ Hmark Hbullet) as [Hmark' Hbullet'].
    rewrite fallback_found.
    + apply found_response_prefix.
    + by rewrite last_of_messages.
    + by rewrite last_of_messages.
Qed.

Lemma chat_found_reply_witness :
  response <$> @chat RankFacts.exact_rapidfuzz RankFacts.knows_all RankFacts.no_matcher
    {| store_config := store_config DirectionsFacts.demo_store;
       all_aisles := all_aisles DirectionsFacts.demo_store;
       all_products := [DirectionsFacts.sugar] |} 0 "sugar" []
  = Some ("📍 Found at **Aisle A1, Shelf 2**." +:+ nl +:+ nl
          +:+ "🚶 Head to **Aisle A1** (Grocery): Go right for 2 sections")
  /\ (startswith ("📍 Found at **Aisle A1, Shelf 2**." +:+ nl +:+ nl
                  +:+ "🚶 Head to **Aisle A1** (Grocery): Go right for 2 sections")
        "📍 Found at **" = true
      \/ startswith ("📍 Found at **Aisle A1, Shelf 2**." +:+ nl +:+ nl
                     +:+ "🚶 Head to **Aisle A1** (Grocery): Go right for 2 sections")
           "Here's what I found." = true).
Proof.
  split; [vm_compute; reflexivity|].
  apply (@chat_found_reply RankFacts.exact_rapidfuzz RankFacts.knows_all
           RankFacts.no_matcher
           {| store_config := store_config DirectionsFacts.demo_store;
              all_aisles := all_aisles DirectionsFacts.demo_store;
              all_products := [DirectionsFacts.sugar] |} 0 "sugar" []
           {| response := "📍 Found at **Aisle A1, Shelf 2**." +:+ nl +:+ nl
                          +:+ "🚶 Head to **Aisle A1** (Grocery): Go right for 2 sections";
              products := [(DirectionsFacts.sugar, (950 # 10)%Q)];
              directions := get_directions_to_product DirectionsFacts.demo_store
                              DirectionsFacts.sugar;
              query := "sugar" |});
    [vm_compute; reflexivity|done].
Defined.

End FoundReplyFacts.

(* ===================================================================== *)
(** ** Results in order of relevance, and configuration updates *)
(* ===================================================================== *)

Module OrderFacts.
Import PyStr Database Search ScoreFacts RankFacts SearchTierFacts Settings Pathfinding.

(** Scores that fall by five from one entry to the next are in order. *)
Lemma falling_scores_sorted (c : Z) (l : list Scored) :
  (forall i r, l !! i = Some r -> match_score r = inject_Z (c - Z.of_nat i * 5)) ->
  StronglySorted desc l.
Proof.
  revert c. induction l as [|a l IH]; intros c Hl; [constructor|].
  constructor.
  - apply (IH (c - 5)). intros i r Hr.
    rewrite (Hl (S i) r Hr). f_equal. lia.
  - apply Forall_forall. intros b Hb.
    apply list_elem_of_lookup in Hb as [j Hj].
    unfold desc. rewrite (Hl 0%nat a eq_refl), (Hl (S j) b Hj).
    rewrite <- Zle_Qle. lia.
Qed.

(** X23.  Whichever tier answers, for [top_n >= 0] the results of
    [search_products] are in order of relevance: no result has a higher
    score than one listed before it. *)
Theorem search_products_sorted `{Rapidfuzz} `{SpellChecker} `{Matcher}
    db query top_n threshold :
  0 <= top_n ->
  StronglySorted desc (search_products db query top_n threshold).
Proof.
  intros Hn.
  destruct (search_products_cases db query top_n threshold)
    as [->|(r & results & Hllm & ->)].
  - unfold search_products_fuzzy. rewrite slice_to_take by done.
    eapply StronglySorted_app_1_l. rewrite take_drop. apply sort_desc_sorted.
  - apply search_with_llm_inv in Hllm as (_ & _ & full & -> & Hranked).
    rewrite slice_to_take by done.
    eapply StronglySorted_app_1_l. rewrite take_drop.
    apply (falling_scores_sorted 100). intros i r' Hr'. by apply (Hranked i).
Qed.

Lemma search_products_sorted_witness :
  0 <= 5
  /\ StronglySorted desc
       (@search_products exact_rapidfuzz knows_all sample_matcher
          {| store_config := ∅; all_aisles := [];
             all_products := [plain_sugar; DirectionsFacts.lamp] |} "tea" 5 50).
Proof.
  split; [lia|].
  apply (@search_products_sorted exact_rapidfuzz knows_all sample_matcher). lia.
Defined.

(** *** [POST /config] *)

Lemma update_store_config_snoc db data key value :
  update_store_config db (data ++ [(key, value)])
  = set_config (update_store_config db data) key value.
Proof. unfold update_store_config. by rewrite fold_left_app. Qed.

(** X24.  After a configuration update every key that was sent holds
    the text of the last value sent for it, and every other key holds
    what it held before; aisles and products are not touched. *)
Theorem update_store_config_last_wins db data key :
  Database.get_config (update_store_config db data) key
  = match last (filter (fun item => item.1 = key) data) with
    | Some item => Some (str item.2)
    | None => Database.get_config db key
    end
  /\ get_all_aisles (update_store_config db data) = get_all_aisles db
  /\ get_all_products (update_store_config db data) = get_all_products db.
Proof.
  induction data as [|[k v] data IH] using rev_ind; [done|].
  destruct IH as (Hget & Haisles & Hproducts).
  rewrite update_store_config_snoc. split; [|by split].
  rewrite filter_app, filter_cons, filter_nil. simpl.
  unfold Database.get_config, set_config in *. simpl.
  destruct (decide (k = key)) as [->|Hne].
  - by rewrite lookup_insert_eq, last_snoc.
  - rewrite lookup_insert_ne by done. by rewrite app_nil_r.
Qed.

Lemma update_store_config_last_wins_witness :
  Database.get_config
    (update_store_config DirectionsFacts.demo_store
       [("grid_rows", IntValue 8); ("store_name", TextValue "Shop");
        ("grid_rows", IntValue 9)]) "grid_rows"
  = Some "9"
  /\ config_int
       (update_store_config DirectionsFacts.demo_store
          [("grid_rows", IntValue 8); ("store_name", TextValue "Shop");
           ("grid_rows", IntValue 9)]) "grid_rows" 6
     = Some 9.
Proof.
  split; [|reflexivity].
  destruct (update_store_config_last_wins DirectionsFacts.demo_store
              [("grid_rows", IntValue 8); ("store_name", TextValue "Shop");
               ("grid_rows", IntValue 9)] "grid_rows") as (Hget & _).
  rewrite Hget. reflexivity.
Defined.

End OrderFacts.
